(** * BB84 quantum key distribution simulation (QKD_BB84_.py)

    A shallow embedding of the simulation's functions and the properties
    that its specification states about them.

    The Python program manipulates three kinds of things:
    - numpy arrays of integers (bits and bases), which are never mutated
      and are modelled as [list Z];
    - Qiskit [QuantumCircuit(1, 1)] objects, which are mutable and shared
      between lists; they live in a heap and are named by their address;
    - two sources of randomness: numpy's global generator and the Aer
      simulator's sampling of measurement outcomes.

    Everything the functions can do to the outside (allocate or mutate a
    circuit, draw a random number, print, raise [IndexError]) is threaded
    through a state-and-exception monad over a [World]. *)

From Stdlib Require Import ZArith QArith Lia.
From stdpp Require Import base tactics option list.

Local Open Scope Z_scope.

(** ** Circuits and their simulation *)

(** The four circuit methods the program calls on qubit 0:
    [qc.x(0)], [qc.h(0)], [qc.barrier()] and [qc.measure(0, 0)]. *)
Inductive instruction : Type :=
| XGate
| HGate
| BarrierOp
| MeasureOp.

(** A [QuantumCircuit(1, 1)] is the sequence of instructions appended so far. *)
Abbreviation QuantumCircuit := (list instruction) (only parsing).

(** The state of the single qubit.  Starting from |0> the gates X and H
    only reach |0>, |1>, |+> and |-> (up to a global phase, which no
    measurement observes), and a measurement collapses onto |0> or |1>. *)
Inductive ket : Type :=
| Ket0
| Ket1
| KetPlus
| KetMinus.

Definition pauli_x (k : ket) : ket :=
  match k with
  | Ket0 => Ket1
  | Ket1 => Ket0
  | KetPlus => KetPlus
  | KetMinus => KetMinus
  end.

Definition hadamard (k : ket) : ket :=
  match k with
  | Ket0 => KetPlus
  | Ket1 => KetMinus
  | KetPlus => Ket0
  | KetMinus => Ket1
  end.

(** Measurement in the computational basis.  [sample] is the outcome the
    simulator draws when the state is an equal superposition. *)
Definition measure_z (sample : bool) (k : ket) : Z * ket :=
  match k with
  | Ket0 => (0, Ket0)
  | Ket1 => (1, Ket1)
  | KetPlus | KetMinus => if sample then (1, Ket1) else (0, Ket0)
  end.

(** One shot of a circuit: the instructions are applied in order to the
    qubit [k] and the classical bit [clbit]; the [pos]-th measurement
    executed by the simulator takes its sample from [tape pos]. *)
Fixpoint execute (qc : QuantumCircuit) (tape : nat -> bool) (pos : nat)
    (k : ket) (clbit : Z) : Z * nat :=
  match qc with
  | [] => (clbit, pos)
  | XGate :: qc' => execute qc' tape pos (pauli_x k) clbit
  | HGate :: qc' => execute qc' tape pos (hadamard k) clbit
  | BarrierOp :: qc' => execute qc' tape pos k clbit
  | MeasureOp :: qc' =>
      let '(b, k') := measure_z (tape pos) k in
      execute qc' tape (S pos) k' b
  end.

(** The state a circuit prepares when no measurement has been appended. *)
Fixpoint prepare (qc : QuantumCircuit) (k : ket) : ket :=
  match qc with
  | [] => k
  | XGate :: qc' => prepare qc' (pauli_x k)
  | HGate :: qc' => prepare qc' (hadamard k)
  | BarrierOp :: qc' => prepare qc' k
  | MeasureOp :: qc' => prepare qc' k
  end.

(** ** The world *)

(** A circuit object is named by its address in the heap. *)
Abbreviation loc := nat (only parsing).

(** What the program prints, with the data each line carries. *)
Inductive event : Type :=
| SimulationRun (i : nat)
| AliceBits (bits : list Z)
| AliceBasis (basis : list Z)
| BobBasis (basis : list Z)
| BobMeasurement (results : list Z)
| MatchingPositions (positions : list nat)
| AliceKey (key : list Z)
| BobKey (key : list Z)
| KeysSame
| KeysDifferent
| KeyLength (alice bob : nat)
| Separator
| EveAnalysis (qubit : nat)
| EveSeesAliceBasis (x_basis : bool)
| EveMeasurementBasis (x_basis : bool)
| EveHadamard
| EveResult (m : Z)
| EveReencode (x_basis : bool)
| EveBitFlip
| EveBegin
| EveEnd.

(** [heap]: the circuit objects, addressed by position (a new object is
    appended).  [np_tape], [np_pos]: the raw draws of numpy's generator
    and how many were consumed.  [aer_tape], [aer_pos]: the samples of the
    Aer simulator and how many were consumed.  [stdout]: the lines
    printed so far. *)
Record World : Type := mkWorld {
  heap : list QuantumCircuit;
  np_tape : nat -> N;
  np_pos : nat;
  aer_tape : nat -> bool;
  aer_pos : nat;
  stdout : list event
}.

Definition set_heap (h : list QuantumCircuit) (w : World) : World :=
  mkWorld h (np_tape w) (np_pos w) (aer_tape w) (aer_pos w) (stdout w).

Definition set_np_pos (p : nat) (w : World) : World :=
  mkWorld (heap w) (np_tape w) p (aer_tape w) (aer_pos w) (stdout w).

Definition set_aer_pos (p : nat) (w : World) : World :=
  mkWorld (heap w) (np_tape w) (np_pos w) (aer_tape w) p (stdout w).

Definition set_stdout (o : list event) (w : World) : World :=
  mkWorld (heap w) (np_tape w) (np_pos w) (aer_tape w) (aer_pos w) o.

(** ** The monad *)

Inductive exn : Type :=
| IndexError.

Inductive outcome (A : Type) : Type :=
| Ok (a : A) (w : World)
| Raise (e : exn) (w : World).

Arguments Ok {A} a w.
Arguments Raise {A} e w.

Definition M (A : Type) : Type := World -> outcome A.

Definition ret {A} (a : A) : M A := fun w => Ok a w.

Definition bind {A B} (m : M A) (f : A -> M B) : M B :=
  fun w =>
    match m w with
    | Ok a w' => f a w'
    | Raise e w' => Raise e w'
    end.

Definition raise {A} (e : exn) : M A := fun w => Raise e w.

Declare Scope py_scope.
Delimit Scope py_scope with py.
Notation "x <- m ;; k" := (bind m (fun x => k))
  (at level 20, m at level 99, k at level 200, only parsing) : py_scope.
Notation "m ;;; k" := (bind m (fun _ => k))
  (at level 100, k at level 200, right associativity, only parsing) : py_scope.
Local Open Scope py_scope.

(** [for x in xs: acc = body(acc, x)] *)
Fixpoint for_each {A S} (body : S -> A -> M S) (xs : list A) (acc : S) : M S :=
  match xs with
  | [] => ret acc
  | x :: xs' => acc' <- body acc x ;; for_each body xs' acc'
  end.

(** [range(n)] *)
Definition range (n : nat) : list nat := seq 0 n.

(** [xs[i]] for an index that is not negative. *)
Definition index {A} (xs : list A) (i : nat) : M A :=
  match xs !! i with
  | Some x => ret x
  | None => raise IndexError
  end.

(** [print(...)] *)
Definition print (e : event) : M unit :=
  fun w => Ok tt (set_stdout (stdout w ++ [e]) w).

(** ** Circuit objects *)

(** [QuantumCircuit(1, 1)] *)
Definition new_circuit : M loc :=
  fun w => Ok (length (heap w)) (set_heap (heap w ++ [[]]) w).

(** [qc.x(0)], [qc.h(0)], [qc.barrier()], [qc.measure(0, 0)]: the object
    at [qc] is changed in place. *)
Definition append_instruction (g : instruction) (qc : loc) : M unit :=
  fun w => Ok tt (set_heap (alter (fun c => c ++ [g]) qc (heap w)) w).

(** [copy.deepcopy(qc)] *)
Definition deepcopy (qc : loc) : M loc :=
  fun w => Ok (length (heap w)) (set_heap (heap w ++ [heap w !!! qc]) w).

(** [int(backend.run(qc, shots=1, memory=True).result().get_memory()[0])] *)
Definition backend_run (qc : loc) : M Z :=
  fun w =>
    let '(b, p) := execute (heap w !!! qc) (aer_tape w) (aer_pos w) Ket0 0 in
    Ok b (set_aer_pos p w).

(** ** numpy's generator *)

(** One element of [randint(2, size=n)]. *)
Definition raw_bit (r : N) : Z := Z.of_N (r mod 2).

(** [np.random.random()] returns a 53-bit integer divided by 2^53, a
    float in [0.0, 1.0).  Finite floats are compared as the rationals
    they denote. *)
Definition raw_uniform (r : N) : Q :=
  Qmake (Z.of_N (r mod 9007199254740992)) 9007199254740992.

Definition Qltb (x y : Q) : bool := negb (Qle_bool y x).

Definition next_raw : M N :=
  fun w => Ok (np_tape w (np_pos w)) (set_np_pos (S (np_pos w)) w).

Definition np_random_random : M Q :=
  r <- next_raw ;; ret (raw_uniform r).

Definition NUM_QUBITS : nat := 32.

Definition generate_bits (n : nat) : M (list Z) :=
  for_each (fun acc _ => r <- next_raw ;; ret (acc ++ [raw_bit r])) (range n) [].

(** ** The protocol functions *)

Definition encode_message (bits basis : list Z) : M (list loc) :=
  for_each (fun message i =>
    qc <- new_circuit ;;
    c <- index basis i ;;
    (if c =? 0 then
       b <- index bits i ;;
       if b =? 1 then append_instruction XGate qc else ret tt
     else
       b <- index bits i ;;
       if b =? 0 then append_instruction HGate qc
       else append_instruction XGate qc ;;; append_instruction HGate qc) ;;;
    append_instruction BarrierOp qc ;;;
    ret (message ++ [qc])) (range NUM_QUBITS) [].

Definition simulate_quantum_channel (message : list loc) (error_rate : Q)
    : M (list loc) :=
  for_each (fun noisy_message qc =>
    r <- np_random_random ;;
    (if Qltb r error_rate then append_instruction XGate qc else ret tt) ;;;
    ret (noisy_message ++ [qc])) message [].

Definition measure_message (message : list loc) (basis : list Z) : M (list Z) :=
  for_each (fun measurements q =>
    c <- index basis q ;;
    (if c =? 1 then qc <- index message q ;; append_instruction HGate qc
     else ret tt) ;;;
    qc <- index message q ;;
    append_instruction MeasureOp qc ;;;
    qc <- index message q ;;
    result <- backend_run qc ;;
    ret (measurements ++ [result])) (range NUM_QUBITS) [].

Definition remove_garbage (a_basis b_basis bits : list Z) : M (list Z) :=
  matching_positions <-
    for_each (fun acc q =>
      a <- index a_basis q ;;
      b <- index b_basis q ;;
      ret (if a =? b then acc ++ [q] else acc)) (range NUM_QUBITS) [] ;;
  print (MatchingPositions matching_positions) ;;;
  for_each (fun acc q => b <- index bits q ;; ret (acc ++ [b]))
    matching_positions [].

(** Returns [None]; the verdict is only printed. *)
Definition check_keys (key1 key2 : list Z) : M unit :=
  print (AliceKey key1) ;;;
  print (BobKey key2) ;;;
  if bool_decide (key1 = key2) then print KeysSame else print KeysDifferent.

(** The loop assigns [message[i] = qc_reencode]: the caller's list is
    overwritten slot by slot, and it is that same list that is returned.
    The loop state carries the contents of the list. *)
Definition simulate_eavesdropping_detailed (message : list loc)
    (eavesdropper_basis alice_basis : list Z) (error_rate : Q)
    : M (list loc * list Z) :=
  for_each (fun '(message, eavesdropper_results) i =>
    original <- index message i ;;
    qc <- deepcopy original ;;
    print (EveAnalysis (i + 1)) ;;;
    a <- index alice_basis i ;;
    print (EveSeesAliceBasis (a =? 1)) ;;;
    e <- index eavesdropper_basis i ;;
    print (EveMeasurementBasis (e =? 1)) ;;;
    e <- index eavesdropper_basis i ;;
    (if e =? 1 then append_instruction HGate qc ;;; print EveHadamard
     else ret tt) ;;;
    append_instruction MeasureOp qc ;;;
    eve_measurement <- backend_run qc ;;
    print (EveResult eve_measurement) ;;;
    qc_reencode <- new_circuit ;;
    e <- index eavesdropper_basis i ;;
    (if e =? 1 then
       (if eve_measurement =? 1 then append_instruction XGate qc_reencode
        else ret tt) ;;;
       append_instruction HGate qc_reencode ;;;
       print (EveReencode true)
     else
       (if eve_measurement =? 1 then append_instruction XGate qc_reencode
        else ret tt) ;;;
       print (EveReencode false)) ;;;
    r <- np_random_random ;;
    (if Qltb r error_rate then
       append_instruction XGate qc_reencode ;;; print EveBitFlip
     else ret tt) ;;;
    ret (<[i := qc_reencode]> message, eavesdropper_results ++ [eve_measurement]))
    (range (length message)) (message, []).

Definition simulate_eavesdropping (message : list loc)
    (eavesdropper_basis alice_basis : list Z) (error_rate : Q)
    : M (list loc * list Z) :=
  print EveBegin ;;;
  r <- simulate_eavesdropping_detailed message eavesdropper_basis alice_basis
         error_rate ;;
  print EveEnd ;;;
  ret r.

(** The local variables of one simulation run. *)
Record RunResult : Type := mkRunResult {
  alice_bits : list Z;
  alice_basis : list Z;
  bob_basis : list Z;
  bob_results : list Z;
  alice_key : list Z;
  bob_key : list Z
}.

(** The body of the loop of [quantum_communication], for run number [i].
    The Python body returns nothing; the model hands back its locals so
    that they can be talked about. *)
Definition simulation_run (error_rate : Q) (i : nat) : M RunResult :=
  print (SimulationRun i) ;;;
  alice_bits <- generate_bits NUM_QUBITS ;;
  print (AliceBits alice_bits) ;;;
  alice_basis <- generate_bits NUM_QUBITS ;;
  print (AliceBasis alice_basis) ;;;
  message <- encode_message alice_bits alice_basis ;;
  message <- simulate_quantum_channel message error_rate ;;
  bob_basis <- generate_bits NUM_QUBITS ;;
  print (BobBasis bob_basis) ;;;
  bob_results <- measure_message message bob_basis ;;
  print (BobMeasurement bob_results) ;;;
  alice_key <- remove_garbage alice_basis bob_basis alice_bits ;;
  bob_key <- remove_garbage alice_basis bob_basis bob_results ;;
  check_keys alice_key bob_key ;;;
  print (KeyLength (length alice_key) (length bob_key)) ;;;
  print Separator ;;;
  ret (mkRunResult alice_bits alice_basis bob_basis bob_results alice_key bob_key).

Definition quantum_communication (error_rate : Q) (num_iterations : nat)
    : M unit :=
  for_each (fun _ i => _r <- simulation_run error_rate i ;; ret tt)
    (seq 1 num_iterations) tt.

(** * Notions used to state the properties *)

(** The outcome of measuring state [k] in basis [c] (1 is the X basis:
    a Hadamard gate precedes the measurement). *)
Definition outcome_of (sample : bool) (k : ket) (c : Z) : Z :=
  fst (measure_z sample (if c =? 1 then hadamard k else k)).

(** The bits that [generate_bits n] reads off the generator's tape. *)
Definition drawn_bits (tape : nat -> N) (pos n : nat) : list Z :=
  (fun k => raw_bit (tape (pos + k)%nat)) <$> seq 0 n.

(** The gates [encode_message] puts in the circuit for bit [b] in basis [c]. *)
Definition encode_gates (b c : Z) : QuantumCircuit :=
  (if c =? 0 then (if b =? 1 then [XGate] else [])
   else (if b =? 0 then [HGate] else [XGate; HGate])) ++ [BarrierOp].

Definition encoded (bits basis : list Z) (n : nat) : list QuantumCircuit :=
  (fun i => encode_gates (bits !!! i) (basis !!! i)) <$> seq 0 n.

(** The gates the channel appends for the uniform draw at position [pos]. *)
Definition noise_gates (tape : nat -> N) (pos : nat) (error_rate : Q)
    : QuantumCircuit :=
  if Qltb (raw_uniform (tape pos)) error_rate then [XGate] else [].

(** The indices below [n] at which the two bases agree, in ascending order. *)
Definition agreeing (a_basis b_basis : list Z) (n : nat) : list nat :=
  filter (fun q => a_basis !!! q = b_basis !!! q) (seq 0 n).

Definition is_bit (z : Z) : Prop := z = 0 \/ z = 1.

(** What the receiver reads, in the sender's basis [c], from the qubit
    that encodes [b] after the channel applied (or not) an X gate. *)
Definition received (b c : Z) (flipped : bool) : Z :=
  if flipped && (c =? 0) then 1 - b else b.

Definition flipped_at (tape : nat -> N) (pos : nat) (error_rate : Q) (i : nat)
    : bool :=
  Qltb (raw_uniform (tape (pos + i)%nat)) error_rate.

(** The receiver's measurements of the qubits that encode [bits] in
    [a_basis], flipped where [flips] says so, in the bases [b_basis]; the
    simulator's samples are read from [tape] at [pos]. *)
Definition measured (bits a_basis b_basis : list Z) (flips : nat -> bool)
    (tape : nat -> bool) (pos : nat) : list Z :=
  (fun q => outcome_of (tape (pos + q)%nat)
              (prepare (encode_gates (bits !!! q) (a_basis !!! q)
                        ++ (if flips q then [XGate] else [])) Ket0)
              (b_basis !!! q))
    <$> seq 0 NUM_QUBITS.

(** The verdict line [check_keys] prints. *)
Definition verdict (key1 key2 : list Z) : event :=
  if bool_decide (key1 = key2) then KeysSame else KeysDifferent.

(** What a run reads off numpy's tape, in the order the run draws it:
    the sender's bits, the sender's bases, one uniform draw per qubit in
    the channel, the receiver's bases. *)
Definition run_alice_bits (w : World) : list Z :=
  drawn_bits (np_tape w) (np_pos w) NUM_QUBITS.

Definition run_alice_basis (w : World) : list Z :=
  drawn_bits (np_tape w) (np_pos w + NUM_QUBITS) NUM_QUBITS.

Definition run_flips (w : World) (error_rate : Q) (i : nat) : bool :=
  flipped_at (np_tape w) (np_pos w + NUM_QUBITS + NUM_QUBITS) error_rate i.

Definition run_bob_basis (w : World) : list Z :=
  drawn_bits (np_tape w) (np_pos w + NUM_QUBITS + NUM_QUBITS + NUM_QUBITS)
    NUM_QUBITS.

(** The locals of a run that starts in world [w]. *)
Definition run_result (error_rate : Q) (w : World) : RunResult :=
  let results :=
    measured (run_alice_bits w) (run_alice_basis w) (run_bob_basis w)
      (run_flips w error_rate) (aer_tape w) (aer_pos w) in
  let positions := agreeing (run_alice_basis w) (run_bob_basis w) NUM_QUBITS in
  mkRunResult (run_alice_bits w) (run_alice_basis w) (run_bob_basis w) results
    ((run_alice_bits w !!!.) <$> positions) ((results !!!.) <$> positions).

(** The lines a run prints. *)
Definition run_output (i : nat) (r : RunResult) : list event :=
  [SimulationRun i; AliceBits (alice_bits r); AliceBasis (alice_basis r);
   BobBasis (bob_basis r); BobMeasurement (bob_results r);
   MatchingPositions (agreeing (alice_basis r) (bob_basis r) NUM_QUBITS);
   MatchingPositions (agreeing (alice_basis r) (bob_basis r) NUM_QUBITS);
   AliceKey (alice_key r); BobKey (bob_key r);
   verdict (alice_key r) (bob_key r);
   KeyLength (length (alice_key r)) (length (bob_key r)); Separator].

(** Lines 239 to 249 of [quantum_communication] for given sender bits,
    sender bases and receiver bases, without the draws and the prints of
    the run around them. *)
Definition run_stages (alice_bits alice_basis bob_basis : list Z)
    (error_rate : Q) : M (list Z * list Z) :=
  message <- encode_message alice_bits alice_basis ;;
  message <- simulate_quantum_channel message error_rate ;;
  bob_results <- measure_message message bob_basis ;;
  alice_key <- remove_garbage alice_basis bob_basis alice_bits ;;
  bob_key <- remove_garbage alice_basis bob_basis bob_results ;;
  ret (alice_key, bob_key).

Definition is_bitb (z : Z) : bool := (z =? 0) || (z =? 1).

Definition all_bits (xs : list Z) : bool := forallb is_bitb xs.

(** The world in which a program starts: no circuit yet, nothing drawn,
    nothing printed. *)
Definition start_world (np : nat -> N) (aer : nat -> bool) : World :=
  mkWorld [] np 0 aer 0 [].

(** The specification's Sifter, in its words: in ascending index order,
    [bits[i]] for every [i] where [basisA[i] == basisB[i]]. *)
Fixpoint sift_spec (basisA basisB bits : list Z) : list Z :=
  match basisA, basisB, bits with
  | a :: basisA', b :: basisB', x :: bits' =>
      if a =? b then x :: sift_spec basisA' basisB' bits'
      else sift_spec basisA' basisB' bits'
  | _, _, _ => []
  end.

(** The specification's [count(i: A[i] == B[i])]. *)
Fixpoint agreement_count_spec (basisA basisB : list Z) : nat :=
  match basisA, basisB with
  | a :: basisA', b :: basisB' =>
      if a =? b then S (agreement_count_spec basisA' basisB')
      else agreement_count_spec basisA' basisB'
  | _, _ => O
  end.

(** The scenario's bases and bits in slots 0 to 3 of sequences of
    [NUM_QUBITS] slots; in the 28 other slots the bases differ (0 is the
    rectilinear basis, 1 the diagonal one). *)
Definition scenario_a_basis : list Z := [0; 0; 1; 1] ++ repeat 0 28.

Definition scenario_b_basis : list Z := [0; 1; 1; 0] ++ repeat 1 28.

Definition scenario_bits : list Z := [1; 0; 1; 0] ++ repeat 0 28.

(** A world with one circuit, the encoding of bit 0 in the rectilinear
    basis, in which numpy's next draws are 0. *)
Definition channel_example_world : World :=
  mkWorld [[BarrierOp]] (fun _ => 0%N) 0 (fun _ => false) 0 [].

(** A tape of numpy draws on which a run from position 0 draws sender
    bits and bases 0 and receiver bases 1: no basis agrees. *)
Definition disagreeing_tape (k : nat) : N :=
  if (k <? 96)%nat then 0%N else 1%N.

(** The gates of the circuit Eve prepares from her result [m] in her
    basis [e]: those of [encode_message], without the barrier. *)
Definition reencode_gates (m e : Z) : list instruction :=
  if e =? 1 then (if m =? 1 then [XGate] else []) ++ [HGate]
  else (if m =? 1 then [XGate] else []).

(** The lines Eve's analysis of one qubit prints. *)
Definition eve_output (i : nat) (a e m : Z) (flipped : bool) : list event :=
  [EveAnalysis (i + 1); EveSeesAliceBasis (a =? 1); EveMeasurementBasis (e =? 1)]
  ++ (if e =? 1 then [EveHadamard] else [])
  ++ [EveResult m; EveReencode (e =? 1)]
  ++ (if flipped then [EveBitFlip] else []).

(** Eve's result for slot [q] of [message] in the world [w] in which the
    interception starts. *)
Definition eve_result (message : list loc) (eavesdropper_basis : list Z)
    (w : World) (q : nat) : Z :=
  outcome_of (aer_tape w (aer_pos w + q))
    (prepare (heap w !!! (message !!! q)) Ket0) (eavesdropper_basis !!! q).

(** The circuit Eve forwards for slot [q]: prepared from her result in
    her basis, then an X gate when her draw is below [error_rate]. *)
Definition eve_forwarded (message : list loc) (eavesdropper_basis : list Z)
    (error_rate : Q) (w : World) (q : nat) : list instruction :=
  reencode_gates (eve_result message eavesdropper_basis w q)
    (eavesdropper_basis !!! q)
  ++ noise_gates (np_tape w) (np_pos w + q) error_rate.

(** The value a circuit holds in basis [c]: what a measurement in that
    basis returns. *)
Definition value_in (c : Z) (qc : list instruction) (sample : bool) : Z :=
  outcome_of sample (prepare qc Ket0) c.

Definition is_measure (g : instruction) : bool :=
  match g with
  | MeasureOp => true
  | _ => false
  end.

(** The object at [l] exists and has not been measured. *)
Definition unmeasured (w : World) (l : loc) : bool :=
  match heap w !! l with
  | Some circ => forallb (fun g => negb (is_measure g)) circ
  | None => false
  end.

(** ** Notions for the further properties *)

(** The state [encode_message] prepares for bit [b] in basis [c], read off
    its branches: basis 0 gives |1> for bit 1 and |0> otherwise, every other
    basis gives |+> for bit 0 and |-> otherwise. *)
Definition bb84_state (b c : Z) : ket :=
  if c =? 0 then (if b =? 1 then Ket1 else Ket0)
  else (if b =? 0 then KetPlus else KetMinus).

(** The bit the simulator's sample stands for. *)
Definition sample_bit (sample : bool) : Z := if sample then 1 else 0.

(** The world as the generator and the simulator see it when run number
    [j] (counting from 0) of [quantum_communication] starts: each run draws
    four sequences of [NUM_QUBITS] numbers from numpy and [NUM_QUBITS]
    samples from the simulator. *)
Definition nth_run_start (w : World) (j : nat) : World :=
  set_aer_pos (aer_pos w + j * NUM_QUBITS)
    (set_np_pos (np_pos w + j * (4 * NUM_QUBITS)) w).

(** Lines 307 to 328 of [main], the eavesdropping option, for given sender
    bits and bases, bases of Eve and receiver bases, without the draws and
    the prints of [main] around the calls. [main] passes the error rate
    0.1. The result holds Eve's measurements, the receiver's measurements
    and the two keys. *)
Definition eavesdropping_stages
    (alice_bits alice_basis eavesdropper_basis bob_basis : list Z)
    (error_rate : Q) : M (list Z * list Z * list Z * list Z) :=
  message <- encode_message alice_bits alice_basis ;;
  bind (simulate_eavesdropping message eavesdropper_basis alice_basis error_rate)
    (fun '(message, eve_measurements) =>
       bob_results <- measure_message message bob_basis ;;
       alice_key <- remove_garbage alice_basis bob_basis alice_bits ;;
       bob_key <- remove_garbage alice_basis bob_basis bob_results ;;
       ret (eve_measurements, bob_results, alice_key, bob_key)).

(** Eve's measurements of the qubits that encode [bits] in [a_basis], in
    her bases [e_basis], with the simulator's samples from [tape] at [pos]. *)
Definition eve_measured (bits a_basis e_basis : list Z) (tape : nat -> bool)
    (pos : nat) : list Z :=
  (fun q => outcome_of (tape (pos + q)%nat)
              (prepare (encode_gates (bits !!! q) (a_basis !!! q)) Ket0)
              (e_basis !!! q))
    <$> seq 0 NUM_QUBITS.

(** The receiver's measurements, in [b_basis], of the qubits Eve forwards
    for her results [eve] in her bases [e_basis], with an X gate where
    [flips] says so. *)
Definition measured_after_eve (eve e_basis b_basis : list Z)
    (flips : nat -> bool) (tape : nat -> bool) (pos : nat) : list Z :=
  (fun q => outcome_of (tape (pos + q)%nat)
              (prepare (reencode_gates (eve !!! q) (e_basis !!! q)
                        ++ (if flips q then [XGate] else [])) Ket0)
              (b_basis !!! q))
    <$> seq 0 NUM_QUBITS.

(** * Properties *)

Ltac wsimpl :=
  cbn [heap np_tape np_pos aer_tape aer_pos stdout
       set_heap set_np_pos set_aer_pos set_stdout] in *.

Ltac world_eq :=
  unfold set_heap, set_np_pos, set_aer_pos, set_stdout; simpl;
  repeat rewrite length_app; simpl; f_equal; try lia.

(** ** Reasoning about computations *)

Lemma bind_ok {A B} (m : M A) (f : A -> M B) w a w' :
  m w = Ok a w' -> bind m f w = f a w'.
Proof. unfold bind. intros ->. reflexivity. Qed.

Lemma bind_raise {A B} (m : M A) (f : A -> M B) w e w' :
  m w = Raise e w' -> bind m f w = Raise e w'.
Proof. unfold bind. intros ->. reflexivity. Qed.

Lemma index_ok {A} (xs : list A) i x w :
  xs !! i = Some x -> index xs i w = Ok x w.
Proof. unfold index. intros ->. reflexivity. Qed.

Lemma index_raise {A} (xs : list A) i w :
  (length xs <= i)%nat -> index xs i w = Raise IndexError w.
Proof.
  intros Hlen. unfold index. rewrite (lookup_ge_None_2 xs i Hlen). reflexivity.
Qed.


Section Loops.
Context {A S : Type} (body : S -> A -> M S).

(** A loop invariant: [I done acc w] relates the elements already
    processed to the accumulator and the world reached. *)
Lemma for_each_invariant (I : list A -> S -> World -> Prop) (xs : list A)
    acc w :
  I [] acc w ->
  (forall done x rest acc1 w1,
      xs = done ++ x :: rest -> I done acc1 w1 ->
      exists acc2 w2, body acc1 x w1 = Ok acc2 w2 /\ I (done ++ [x]) acc2 w2) ->
  exists acc' w', for_each body xs acc w = Ok acc' w' /\ I xs acc' w'.
Proof.
  intros Hinit Hstep.
  assert (Hgen : forall rest done acc1 w1,
             xs = done ++ rest -> I done acc1 w1 ->
             exists acc' w',
               for_each body rest acc1 w1 = Ok acc' w' /\ I xs acc' w').
  { induction rest as [|x rest IH]; intros done acc1 w1 Hxs Hdone.
    - rewrite app_nil_r in Hxs. subst done. exists acc1, w1.
      split; [reflexivity|assumption].
    - destruct (Hstep done x rest acc1 w1 Hxs Hdone)
        as (acc2 & w2 & Hbody & Hnext).
      simpl. rewrite (bind_ok _ _ _ _ _ Hbody).
      apply (IH (done ++ [x])); [|assumption].
      rewrite <- app_assoc. exact Hxs. }
  apply (Hgen xs []); [reflexivity|assumption].
Qed.

(** A loop whose body raises at the first element it cannot process. *)
Lemma for_each_raise xs y ys e acc w :
  (forall x acc1 w1, x ∈ xs -> exists acc2 w2, body acc1 x w1 = Ok acc2 w2) ->
  (forall acc1 w1, exists w2, body acc1 y w1 = Raise e w2) ->
  exists w', for_each body (xs ++ y :: ys) acc w = Raise e w'.
Proof.
  intros Hok Hbad. revert acc w.
  induction xs as [|x xs IH]; intros acc w; simpl.
  - destruct (Hbad acc w) as [w2 Hw2]. exists w2.
    rewrite (bind_raise _ _ _ _ _ Hw2). reflexivity.
  - destruct (Hok x acc w) as (acc2 & w2 & Hbody); [left|].
    rewrite (bind_ok _ _ _ _ _ Hbody). apply IH.
    intros x' acc1 w1 Hin. apply Hok. right. exact Hin.
Qed.

(** Two bodies that agree on the elements of the list run the same loop. *)
Lemma for_each_ext (body' : S -> A -> M S) xs acc w :
  (forall x acc1 w1, x ∈ xs -> body acc1 x w1 = body' acc1 x w1) ->
  for_each body xs acc w = for_each body' xs acc w.
Proof.
  revert acc w. induction xs as [|x xs IH]; intros acc w Hext; [reflexivity|].
  simpl. unfold bind. rewrite Hext by left.
  destruct (body' acc x w) as [acc' w'|e w']; [|reflexivity].
  apply IH. intros x' acc1 w1 Hin. apply Hext. by right.
Qed.
End Loops.

Lemma seq_split (s n : nat) (done : list nat) x rest :
  seq s n = done ++ x :: rest ->
  done = seq s (length done) /\ x = (s + length done)%nat /\ (length done < n)%nat
  /\ rest = seq (S (s + length done)) (n - S (length done)).
Proof.
  intros Heq.
  assert (Hlen : (length done < n)%nat).
  { apply (f_equal length) in Heq. rewrite length_seq, length_app in Heq.
    simpl in Heq. lia. }
  replace n with (length done + (n - length done))%nat in Heq by lia.
  rewrite seq_app in Heq.
  assert (Hd : length (seq s (length done)) = length done) by apply length_seq.
  apply app_inj_1 in Heq as [Hdone Hrest]; [|exact Hd].
  replace (n - length done)%nat with (S (n - S (length done))) in Hrest by lia.
  simpl in Hrest. injection Hrest as Hx Hrest.
  repeat split; [by symmetry|by symmetry|exact Hlen|].
  rewrite <- Hrest. reflexivity.
Qed.

(** ** What a circuit measures *)

Lemma prepare_app qc1 qc2 k :
  prepare (qc1 ++ qc2) k = prepare qc2 (prepare qc1 k).
Proof.
  revert k. induction qc1 as [|g qc1 IH]; intros k; [reflexivity|].
  destruct g; simpl; apply IH.
Qed.

Lemma execute_measure_last qc tape pos k clbit :
  MeasureOp ∉ qc ->
  execute (qc ++ [MeasureOp]) tape pos k clbit
  = (fst (measure_z (tape pos) (prepare qc k)), S pos).
Proof.
  revert k. induction qc as [|g qc IH]; intros k Hno.
  - simpl. destruct (measure_z (tape pos) k). reflexivity.
  - assert (Hqc : MeasureOp ∉ qc) by (intros Hin; apply Hno; by right).
    destruct g; simpl; try (apply IH; exact Hqc).
    exfalso. apply Hno. left.
Qed.

Lemma execute_in_basis qc c tape pos :
  MeasureOp ∉ qc ->
  execute ((qc ++ (if c =? 1 then [HGate] else [])) ++ [MeasureOp]) tape pos Ket0 0
  = (outcome_of (tape pos) (prepare qc Ket0) c, S pos).
Proof.
  intros Hno. rewrite execute_measure_last.
  - unfold outcome_of. rewrite prepare_app. destruct (c =? 1); reflexivity.
  - intros Hin. apply elem_of_app in Hin as [Hin|Hin]; [by apply Hno|].
    destruct (c =? 1); inversion Hin; subst.
    match goal with H : MeasureOp ∈ [] |- _ => inversion H end.
Qed.

(** ** The stages, one by one *)

Lemma drawn_bits_length tape pos n : length (drawn_bits tape pos n) = n.
Proof. unfold drawn_bits. rewrite length_fmap. apply length_seq. Qed.

Lemma drawn_bits_lookup tape pos n k :
  (k < n)%nat -> drawn_bits tape pos n !! k = Some (raw_bit (tape (pos + k)%nat)).
Proof.
  intros Hk. unfold drawn_bits. rewrite list_lookup_fmap, lookup_seq_lt by exact Hk.
  reflexivity.
Qed.

Lemma generate_bits_spec n w :
  generate_bits n w
  = Ok (drawn_bits (np_tape w) (np_pos w) n) (set_np_pos (np_pos w + n) w).
Proof.
  unfold generate_bits, range.
  match goal with |- for_each ?b ?xs ?a ?w = _ =>
    destruct (for_each_invariant b
      (fun done acc w' =>
         acc = drawn_bits (np_tape w) (np_pos w) (length done)
         /\ w' = set_np_pos (np_pos w + length done) w) xs a w)
      as (acc' & w' & Heq & Hacc & Hw)
  end.
  - split; [reflexivity|]. destruct w. world_eq.
  - intros done x rest acc1 w1 Hsplit [-> ->].
    apply seq_split in Hsplit as (_ & -> & _ & _).
    eexists _, _. split; [reflexivity|]. split.
    + rewrite length_app. simpl. unfold drawn_bits.
      replace (length done + 1)%nat with (S (length done)) by lia.
      rewrite seq_S, fmap_app. reflexivity.
    + world_eq.
  - rewrite Heq, Hacc, Hw, length_seq. reflexivity.
Qed.

Lemma encoded_length bits basis n : length (encoded bits basis n) = n.
Proof. unfold encoded. rewrite length_fmap. apply length_seq. Qed.

Lemma alter_fresh (f : QuantumCircuit -> QuantumCircuit) h c :
  alter f (length h) (h ++ [c]) = h ++ [f c].
Proof.
  replace (length h) with (length h + 0)%nat at 1 by lia.
  rewrite alter_app_r. reflexivity.
Qed.

Lemma encode_slot bits basis i b c message w :
  bits !! i = Some b -> basis !! i = Some c ->
  (qc <- new_circuit ;;
   c <- index basis i ;;
   (if c =? 0 then
      b <- index bits i ;;
      if b =? 1 then append_instruction XGate qc else ret tt
    else
      b <- index bits i ;;
      if b =? 0 then append_instruction HGate qc
      else append_instruction XGate qc ;;; append_instruction HGate qc) ;;;
   append_instruction BarrierOp qc ;;;
   ret (message ++ [qc])) w
  = Ok (message ++ [length (heap w)]) (set_heap (heap w ++ [encode_gates b c]) w).
Proof.
  intros Hb Hc. unfold bind, new_circuit, index. simpl. rewrite Hc, Hb.
  unfold ret, encode_gates.
  destruct (c =? 0); [destruct (b =? 1) | destruct (b =? 0)];
    unfold append_instruction, ret; simpl; rewrite !alter_fresh; reflexivity.
Qed.

Lemma encode_loop bits basis n w :
  (n <= length bits)%nat -> (n <= length basis)%nat ->
  for_each (fun message i =>
    qc <- new_circuit ;;
    c <- index basis i ;;
    (if c =? 0 then
       b <- index bits i ;;
       if b =? 1 then append_instruction XGate qc else ret tt
     else
       b <- index bits i ;;
       if b =? 0 then append_instruction HGate qc
       else append_instruction XGate qc ;;; append_instruction HGate qc) ;;;
    append_instruction BarrierOp qc ;;;
    ret (message ++ [qc])) (seq 0 n) [] w
  = Ok (seq (length (heap w)) n) (set_heap (heap w ++ encoded bits basis n) w).
Proof.
  intros Hbits Hbasis.
  match goal with |- for_each ?b ?xs ?a ?w = _ =>
    destruct (for_each_invariant b
      (fun done acc w' =>
         acc = seq (length (heap w)) (length done)
         /\ w' = set_heap (heap w ++ encoded bits basis (length done)) w) xs a w)
      as (acc' & w' & Heq & Hacc & Hw)
  end.
  - split; [reflexivity|]. destruct w. unfold encoded. simpl.
    unfold set_heap. simpl. rewrite app_nil_r. reflexivity.
  - intros done x rest acc1 w1 Hsplit [-> ->].
    apply seq_split in Hsplit as (_ & -> & Hlt & _). simpl in *.
    assert (Hc : basis !! length done = Some (basis !!! length done))
      by (apply list_lookup_lookup_total_lt; lia).
    assert (Hb : bits !! length done = Some (bits !!! length done))
      by (apply list_lookup_lookup_total_lt; lia).
    eexists _, _. split; [apply (encode_slot _ _ _ _ _ _ _ Hb Hc)|].
    rewrite length_app. simpl.
    replace (length done + 1)%nat with (S (length done)) by lia. split.
    + rewrite seq_S. do 2 f_equal.
      rewrite length_app, encoded_length. reflexivity.
    + unfold encoded. rewrite seq_S, fmap_app. unfold set_heap. simpl.
      rewrite <- app_assoc. reflexivity.
  - rewrite Heq, Hacc, Hw, length_seq. reflexivity.
Qed.

Lemma encode_message_spec bits basis w :
  (NUM_QUBITS <= length bits)%nat -> (NUM_QUBITS <= length basis)%nat ->
  encode_message bits basis w
  = Ok (seq (length (heap w)) NUM_QUBITS)
       (set_heap (heap w ++ encoded bits basis NUM_QUBITS) w).
Proof. apply encode_loop. Qed.

Lemma channel_slot (qc : loc) (noisy : list loc) error_rate w :
  (r <- np_random_random ;;
   (if Qltb r error_rate then append_instruction XGate qc else ret tt) ;;;
   ret (noisy ++ [qc])) w
  = Ok (noisy ++ [qc])
       (set_np_pos (S (np_pos w))
          (set_heap
             (alter (fun c => c ++ noise_gates (np_tape w) (np_pos w) error_rate)
                qc (heap w)) w)).
Proof.
  unfold bind, np_random_random, bind, next_raw, ret, noise_gates. simpl.
  destruct (Qltb _ _); unfold append_instruction; simpl.
  - reflexivity.
  - rewrite list_alter_id by (intros c; apply app_nil_r). destruct w; reflexivity.
Qed.

Lemma simulate_quantum_channel_spec message error_rate w :
  exists h',
    simulate_quantum_channel message error_rate w
    = Ok message (set_np_pos (np_pos w + length message) (set_heap h' w))
    /\ length h' = length (heap w)
    /\ (forall l, l ∉ message -> h' !! l = heap w !! l)
    /\ (NoDup message -> forall i l, message !! i = Some l ->
        h' !! l = (fun c => c ++ noise_gates (np_tape w) (np_pos w + i) error_rate)
                    <$> heap w !! l).
Proof.
  unfold simulate_quantum_channel.
  match goal with |- context [for_each ?b ?xs ?a ?w] =>
    destruct (for_each_invariant b
      (fun done acc w' =>
         acc = done /\ exists h',
           w' = set_np_pos (np_pos w + length done) (set_heap h' w)
           /\ length h' = length (heap w)
           /\ (forall l, l ∉ done -> h' !! l = heap w !! l)
           /\ (NoDup done -> forall i l, done !! i = Some l ->
               h' !! l = (fun c => c ++ noise_gates (np_tape w) (np_pos w + i) error_rate)
                           <$> heap w !! l)) xs a w)
      as (acc' & w' & Heq & Hacc & h' & Hw & Hlen & Hframe & Hflip)
  end.
  - split; [reflexivity|]. exists (heap w). repeat split.
    + destruct w. world_eq.
    + intros _ i l Hi. inversion Hi.
  - intros done x rest acc1 w1 Hsplit (-> & h1 & -> & Hlen & Hframe & Hflip).
    eexists _, _. split; [apply channel_slot|]. split; [reflexivity|].
    simpl. eexists. split; [|split; [|split]].
    + world_eq.
    + rewrite length_alter. exact Hlen.
    + intros l Hl. rewrite not_elem_of_app, not_elem_of_cons in Hl.
      destruct Hl as [Hl1 [Hl2 _]].
      rewrite list_lookup_alter_ne by congruence. apply Hframe, Hl1.
    + intros Hnd i l Hi. apply NoDup_app in Hnd as (Hnd & Hdisj & _).
      destruct (decide (i < length done)%nat) as [Hlt|Hge].
      * rewrite lookup_app_l in Hi by exact Hlt.
        assert (Hin : l ∈ done) by (eapply list_elem_of_lookup_2; exact Hi).
        rewrite list_lookup_alter_ne.
        -- apply Hflip; assumption.
        -- intros ->. apply (Hdisj l Hin). left.
      * rewrite lookup_app_r in Hi by lia.
        destruct (i - length done)%nat eqn:Ei; [|destruct n; inversion Hi].
        simpl in Hi. injection Hi as ->.
        assert (i = length done) as -> by lia.
        rewrite list_lookup_alter_eq, Hframe; [reflexivity|].
        intros Hin. apply (Hdisj l Hin). left.
  - subst acc'. exists h'. rewrite Heq, Hw. repeat split; assumption.
Qed.

Lemma measure_slot (message : list loc) (basis : list Z) q l c circ
    (measurements : list Z) w :
  message !! q = Some l -> basis !! q = Some c ->
  heap w !! l = Some circ -> MeasureOp ∉ circ ->
  (c <- index basis q ;;
   (if c =? 1 then qc <- index message q ;; append_instruction HGate qc
    else ret tt) ;;;
   qc <- index message q ;;
   append_instruction MeasureOp qc ;;;
   qc <- index message q ;;
   result <- backend_run qc ;;
   ret (measurements ++ [result])) w
  = Ok (measurements ++ [outcome_of (aer_tape w (aer_pos w)) (prepare circ Ket0) c])
       (set_aer_pos (S (aer_pos w))
          (set_heap
             (alter (fun x => x ++ [MeasureOp]) l
                (if c =? 1 then alter (fun x => x ++ [HGate]) l (heap w)
                 else heap w)) w)).
Proof.
  intros Hl Hc Hcirc Hno.
  assert (Hrun : alter (fun x => x ++ [MeasureOp]) l
                   (if c =? 1 then alter (fun x => x ++ [HGate]) l (heap w)
                    else heap w) !!! l
                 = (circ ++ (if c =? 1 then [HGate] else [])) ++ [MeasureOp]).
  { apply list_lookup_total_correct. rewrite list_lookup_alter_eq.
    destruct (c =? 1).
    - rewrite list_lookup_alter_eq, Hcirc. reflexivity.
    - rewrite Hcirc. simpl. rewrite app_nil_r. reflexivity. }
  pose proof (execute_in_basis circ c (aer_tape w) (aer_pos w) Hno) as Hexec.
  rewrite <- Hrun in Hexec. clear Hrun.
  unfold bind, index. rewrite Hc. unfold ret at 1.
  destruct (c =? 1); rewrite Hl; unfold ret, append_instruction, backend_run;
    simpl; rewrite Hexec; reflexivity.
Qed.

Lemma take_S_lookup {A} (xs : list A) k x :
  xs !! k = Some x -> take (S k) xs = take k xs ++ [x].
Proof. intros Hx. by apply take_S_r. Qed.

Lemma measure_loop (message : list loc) (basis : list Z) n w :
  (n <= length message)%nat -> (n <= length basis)%nat ->
  NoDup (take n message) ->
  (forall q l, (q < n)%nat -> message !! q = Some l ->
     exists circ, heap w !! l = Some circ /\ MeasureOp ∉ circ) ->
  exists h',
    for_each (fun measurements q =>
      c <- index basis q ;;
      (if c =? 1 then qc <- index message q ;; append_instruction HGate qc
       else ret tt) ;;;
      qc <- index message q ;;
      append_instruction MeasureOp qc ;;;
      qc <- index message q ;;
      result <- backend_run qc ;;
      ret (measurements ++ [result])) (seq 0 n) [] w
    = Ok ((fun q => outcome_of (aer_tape w (aer_pos w + q))
                      (prepare (heap w !!! (message !!! q)) Ket0) (basis !!! q))
            <$> seq 0 n)
         (set_aer_pos (aer_pos w + n) (set_heap h' w))
    /\ length h' = length (heap w)
    /\ (forall l, l ∉ take n message -> h' !! l = heap w !! l).
Proof.
  intros Hmsg Hbasis Hnd Hprep.
  match goal with |- context [for_each ?b ?xs ?a ?w] =>
    destruct (for_each_invariant b
      (fun done acc w' =>
         acc = (fun q => outcome_of (aer_tape w (aer_pos w + q))
                           (prepare (heap w !!! (message !!! q)) Ket0) (basis !!! q))
                 <$> done
         /\ exists h',
           w' = set_aer_pos (aer_pos w + length done) (set_heap h' w)
           /\ length h' = length (heap w)
           /\ (forall l, l ∉ take (length done) message -> h' !! l = heap w !! l))
      xs a w)
      as (acc' & w' & Heq & Hacc & h' & Hw & Hlen & Hframe)
  end.
  - split; [reflexivity|]. exists (heap w). repeat split. destruct w. world_eq.
  - intros done x rest acc1 w1 Hsplit (-> & h1 & -> & Hlen & Hframe).
    apply seq_split in Hsplit as (_ & -> & Hlt & _). simpl in *.
    set (k := length done) in *.
    assert (Hl : message !! k = Some (message !!! k))
      by (apply list_lookup_lookup_total_lt; lia).
    assert (Hc : basis !! k = Some (basis !!! k))
      by (apply list_lookup_lookup_total_lt; lia).
    set (l := message !!! k) in *. set (c := basis !!! k) in *.
    destruct (Hprep k l Hlt Hl) as (circ & Hcirc & Hno).
    assert (Hfresh : l ∉ take k message).
    { intros Hin. apply list_elem_of_lookup in Hin as [j Hj].
      apply lookup_take_Some in Hj as [Hj Hjk].
      assert (j = k); [|lia].
      apply (NoDup_lookup _ _ _ l Hnd); rewrite lookup_take_lt by lia; assumption. }
    assert (Hcirc1 : heap (set_aer_pos (aer_pos w + k) (set_heap h1 w)) !! l = Some circ).
    { simpl. rewrite Hframe by exact Hfresh. exact Hcirc. }
    eexists _, _. split; [apply (measure_slot _ _ _ _ _ _ _ _ Hl Hc Hcirc1 Hno)|].
    split.
    + rewrite fmap_app. simpl.
      rewrite (list_lookup_total_correct _ _ _ Hcirc). reflexivity.
    + eexists. split; [|split].
      * rewrite length_app. simpl. world_eq.
      * rewrite length_alter. destruct (c =? 1); [rewrite length_alter|]; exact Hlen.
      * intros l' Hl'.
        replace (length (done ++ [k])) with (S k) in Hl'
          by (rewrite length_app; simpl; lia).
        rewrite (take_S_lookup _ _ _ Hl) in Hl'.
        rewrite not_elem_of_app, not_elem_of_cons in Hl'.
        destruct Hl' as [Hl1 [Hl2 _]].
        rewrite list_lookup_alter_ne by congruence.
        destruct (c =? 1); [rewrite list_lookup_alter_ne by congruence|];
          apply Hframe, Hl1.
  - exists h'. rewrite Heq, Hacc, Hw, length_seq in *. repeat split; assumption.
Qed.

Lemma agreeing_S a_basis b_basis n :
  agreeing a_basis b_basis (S n)
  = agreeing a_basis b_basis n
    ++ (if a_basis !!! n =? b_basis !!! n then [n] else []).
Proof.
  unfold agreeing. rewrite seq_S, filter_app. f_equal. simpl.
  rewrite filter_cons, filter_nil.
  destruct (Z.eqb_spec (a_basis !!! n) (b_basis !!! n)); case_decide; done.
Qed.

Lemma agreeing_lt a_basis b_basis n q :
  q ∈ agreeing a_basis b_basis n ->
  (q < n)%nat /\ a_basis !!! q = b_basis !!! q.
Proof.
  unfold agreeing. rewrite list_elem_of_filter, elem_of_seq. intros [? ?].
  split; [lia|assumption].
Qed.


Lemma match_loop (a_basis b_basis : list Z) n w :
  (n <= length a_basis)%nat -> (n <= length b_basis)%nat ->
  for_each (fun acc q =>
    a <- index a_basis q ;;
    b <- index b_basis q ;;
    ret (if a =? b then acc ++ [q] else acc)) (seq 0 n) [] w
  = Ok (agreeing a_basis b_basis n) w.
Proof.
  intros Ha Hb.
  match goal with |- for_each ?b ?xs ?a ?w = _ =>
    destruct (for_each_invariant b
      (fun done acc w' =>
         acc = agreeing a_basis b_basis (length done) /\ w' = w) xs a w)
      as (acc' & w' & Heq & Hacc & Hw)
  end.
  - split; reflexivity.
  - intros done x rest acc1 w1 Hsplit [-> ->].
    apply seq_split in Hsplit as (_ & -> & Hlt & _). simpl in *.
    eexists _, _. split.
    + unfold bind.
      rewrite (index_ok a_basis _ (a_basis !!! length done))
        by (apply list_lookup_lookup_total_lt; lia).
      rewrite (index_ok b_basis _ (b_basis !!! length done))
        by (apply list_lookup_lookup_total_lt; lia).
      reflexivity.
    + split; [|reflexivity]. rewrite length_app. simpl.
      replace (length done + 1)%nat with (S (length done)) by lia.
      rewrite agreeing_S. destruct (_ =? _); [reflexivity|by rewrite app_nil_r].
  - rewrite Heq, Hacc, Hw, length_seq. reflexivity.
Qed.

Lemma collect_loop (bits : list Z) (positions : list nat) (acc : list Z) w :
  Forall (fun q => (q < length bits)%nat) positions ->
  for_each (fun acc q => b <- index bits q ;; ret (acc ++ [b])) positions acc w
  = Ok (acc ++ ((bits !!!.) <$> positions)) w.
Proof.
  intros Hall. revert acc. induction Hall as [|q qs Hq _ IH]; intros acc; simpl.
  - unfold ret. by rewrite app_nil_r.
  - unfold bind at 1 2.
    rewrite (index_ok bits q (bits !!! q))
      by (apply list_lookup_lookup_total_lt; exact Hq).
    unfold ret at 1. rewrite IH, <- app_assoc. reflexivity.
Qed.

Lemma collect_loop_raise (bits : list Z) (positions : list nat) (acc : list Z) w :
  ~ Forall (fun q => (q < length bits)%nat) positions ->
  for_each (fun acc q => b <- index bits q ;; ret (acc ++ [b])) positions acc w
  = Raise IndexError w.
Proof.
  revert acc. induction positions as [|q qs IH]; intros acc Hbad; simpl.
  - exfalso. apply Hbad. constructor.
  - unfold bind at 1 2. destruct (decide (q < length bits)%nat) as [Hq|Hq].
    + rewrite (index_ok bits q (bits !!! q))
        by (apply list_lookup_lookup_total_lt; exact Hq).
      unfold ret at 1. apply IH. intros Hall. apply Hbad. by constructor.
    + rewrite index_raise by lia. reflexivity.
Qed.

Lemma remove_garbage_spec (a_basis b_basis bits : list Z) w :
  (NUM_QUBITS <= length a_basis)%nat -> (NUM_QUBITS <= length b_basis)%nat ->
  Forall (fun q => (q < length bits)%nat) (agreeing a_basis b_basis NUM_QUBITS) ->
  remove_garbage a_basis b_basis bits w
  = Ok ((bits !!!.) <$> agreeing a_basis b_basis NUM_QUBITS)
       (set_stdout
          (stdout w ++ [MatchingPositions (agreeing a_basis b_basis NUM_QUBITS)]) w).
Proof.
  intros Ha Hb Hbits. unfold remove_garbage, range.
  rewrite (bind_ok _ _ _ _ _ (match_loop a_basis b_basis NUM_QUBITS w Ha Hb)).
  unfold bind, print. apply collect_loop. exact Hbits.
Qed.

Lemma remove_garbage_short_bits (a_basis b_basis bits : list Z) w :
  (NUM_QUBITS <= length a_basis)%nat -> (NUM_QUBITS <= length b_basis)%nat ->
  ~ Forall (fun q => (q < length bits)%nat) (agreeing a_basis b_basis NUM_QUBITS) ->
  remove_garbage a_basis b_basis bits w
  = Raise IndexError
       (set_stdout
          (stdout w ++ [MatchingPositions (agreeing a_basis b_basis NUM_QUBITS)]) w).
Proof.
  intros Ha Hb Hbits. unfold remove_garbage, range.
  rewrite (bind_ok _ _ _ _ _ (match_loop a_basis b_basis NUM_QUBITS w Ha Hb)).
  unfold bind, print. apply collect_loop_raise. exact Hbits.
Qed.

(** ** Transmission of one qubit *)

Lemma matching_outcome sample b c (flipped : bool) :
  is_bit b -> is_bit c ->
  outcome_of sample
    (prepare (encode_gates b c ++ (if flipped then [XGate] else [])) Ket0) c
  = received b c flipped.
Proof.
  intros [-> | ->] [-> | ->]; destruct flipped; reflexivity.
Qed.

Lemma no_measure_encoded b c (flipped : bool) :
  MeasureOp ∉ encode_gates b c ++ (if flipped then [XGate] else []).
Proof.
  unfold encode_gates.
  destruct (c =? 0), (b =? 1), (b =? 0), flipped; simpl;
    rewrite ?not_elem_of_cons; repeat split; try discriminate;
    apply not_elem_of_nil.
Qed.

Lemma drawn_bits_is_bit tape pos n q :
  (q < n)%nat -> is_bit (drawn_bits tape pos n !!! q).
Proof.
  intros Hq.
  rewrite (list_lookup_total_correct _ _ _ (drawn_bits_lookup tape pos n q Hq)).
  unfold raw_bit, is_bit.
  assert (tape (pos + q)%nat mod 2 < 2)%N as Hlt by (apply N.mod_lt; discriminate).
  generalize dependent (tape (pos + q)%nat mod 2)%N. intros x Hx. lia.
Qed.

(** The channel never flips when the error rate is zero: a draw is never
    negative. *)
Lemma no_flip_at_zero (r : N) : Qltb (raw_uniform r) 0 = false.
Proof.
  unfold Qltb, raw_uniform, Qle_bool. simpl.
  apply negb_false_iff, Z.leb_le. rewrite Z.mul_1_r. apply N2Z.is_nonneg.
Qed.


(** ** Encoding, channel and measurement together *)

Lemma encode_then_channel (bits basis : list Z) error_rate w :
  (NUM_QUBITS <= length bits)%nat -> (NUM_QUBITS <= length basis)%nat ->
  exists h',
    (message <- encode_message bits basis ;;
     simulate_quantum_channel message error_rate) w
    = Ok (seq (length (heap w)) NUM_QUBITS)
         (set_np_pos (np_pos w + NUM_QUBITS) (set_heap h' w))
    /\ (forall l, (l < length (heap w))%nat -> h' !! l = heap w !! l)
    /\ (forall i, (i < NUM_QUBITS)%nat ->
        h' !! (length (heap w) + i)%nat
        = Some (encode_gates (bits !!! i) (basis !!! i)
                ++ (if flipped_at (np_tape w) (np_pos w) error_rate i
                    then [XGate] else []))).
Proof.
  intros Hbits Hbasis.
  rewrite (bind_ok _ _ _ _ _ (encode_message_spec bits basis w Hbits Hbasis)).
  destruct (simulate_quantum_channel_spec (seq (length (heap w)) NUM_QUBITS)
              error_rate
              (set_heap (heap w ++ encoded bits basis NUM_QUBITS) w))
    as (h' & Heq & _ & Hframe & Hflip).
  exists h'. rewrite Heq, length_seq. wsimpl. split; [|split].
  - destruct w; reflexivity.
  - intros l Hl. rewrite Hframe.
    + apply lookup_app_l. exact Hl.
    + rewrite elem_of_seq. lia.
  - intros i Hi.
    rewrite (Hflip (NoDup_seq _ _) i) by (apply lookup_seq_lt; exact Hi).
    rewrite lookup_app_r by lia.
    replace (length (heap w) + i - length (heap w))%nat with i by lia.
    unfold encoded. rewrite list_lookup_fmap, lookup_seq_lt by exact Hi.
    reflexivity.
Qed.

Lemma measured_length bits a_basis b_basis flips tape pos :
  length (measured bits a_basis b_basis flips tape pos) = NUM_QUBITS.
Proof. unfold measured. rewrite length_fmap. apply length_seq. Qed.

Lemma measured_matching bits a_basis b_basis flips tape pos q :
  (q < NUM_QUBITS)%nat ->
  is_bit (bits !!! q) -> is_bit (a_basis !!! q) ->
  a_basis !!! q = b_basis !!! q ->
  measured bits a_basis b_basis flips tape pos !!! q
  = received (bits !!! q) (a_basis !!! q) (flips q).
Proof.
  intros Hq Hbit Hbas Hsame. unfold measured.
  erewrite list_lookup_total_correct;
    [|rewrite list_lookup_fmap, lookup_seq_lt by exact Hq; reflexivity].
  rewrite !Nat.add_0_l, <- Hsame. apply matching_outcome; assumption.
Qed.

Lemma measure_encoded (bits a_basis b_basis : list Z) (flips : nat -> bool)
    base w :
  (NUM_QUBITS <= length b_basis)%nat ->
  (forall i, (i < NUM_QUBITS)%nat ->
     heap w !! (base + i)%nat
     = Some (encode_gates (bits !!! i) (a_basis !!! i)
             ++ (if flips i then [XGate] else []))) ->
  exists h',
    measure_message (seq base NUM_QUBITS) b_basis w
    = Ok (measured bits a_basis b_basis flips (aer_tape w) (aer_pos w))
         (set_aer_pos (aer_pos w + NUM_QUBITS) (set_heap h' w))
    /\ (forall l, (l < base)%nat -> h' !! l = heap w !! l).
Proof.
  intros Hb Hheap.
  destruct (measure_loop (seq base NUM_QUBITS) b_basis NUM_QUBITS w)
    as (h' & Heq & _ & Hframe).
  - rewrite length_seq. lia.
  - exact Hb.
  - rewrite firstn_all2 by (rewrite length_seq; lia). apply NoDup_seq.
  - intros q l Hq Hl. apply lookup_seq in Hl as [-> _].
    eexists. split; [apply Hheap, Hq|apply no_measure_encoded].
  - exists h'. split.
    + unfold measure_message, range. rewrite Heq. f_equal.
      unfold measured. apply Forall_fmap_ext, Forall_forall.
      intros q Hq. apply elem_of_seq in Hq.
      rewrite lookup_total_seq_lt by lia.
      assert (Hq' : (q < NUM_QUBITS)%nat) by lia.
      rewrite (list_lookup_total_correct _ _ _ (Hheap q Hq')).
      reflexivity.
    + intros l Hl. apply Hframe.
      rewrite firstn_all2 by (rewrite length_seq; lia). rewrite elem_of_seq. lia.
Qed.

Lemma bind_assoc {A B C} (m : M A) (f : A -> M B) (g : B -> M C) w :
  bind (bind m f) g w = bind m (fun x => bind (f x) g) w.
Proof. unfold bind. destruct (m w); reflexivity. Qed.

Lemma print_spec e w : print e w = Ok tt (set_stdout (stdout w ++ [e]) w).
Proof. reflexivity. Qed.

Lemma check_keys_spec key1 key2 w :
  check_keys key1 key2 w
  = Ok tt (set_stdout
             (stdout w ++ [AliceKey key1; BobKey key2; verdict key1 key2]) w).
Proof.
  unfold check_keys, verdict, bind, print.
  destruct (bool_decide (key1 = key2)); wsimpl; rewrite <- !app_assoc;
    reflexivity.
Qed.

Lemma agreeing_in_range (a_basis b_basis xs : list Z) n :
  (n <= length xs)%nat ->
  Forall (fun q => (q < length xs)%nat) (agreeing a_basis b_basis n).
Proof.
  intros Hxs. apply Forall_forall. intros q Hq.
  apply agreeing_lt in Hq as [Hq _]. lia.
Qed.

(** ** One simulation run *)

Lemma simulation_run_spec error_rate i w :
  exists h',
    simulation_run error_rate i w
    = Ok (run_result error_rate w)
         (mkWorld h' (np_tape w)
            (np_pos w + NUM_QUBITS + NUM_QUBITS + NUM_QUBITS + NUM_QUBITS)
            (aer_tape w) (aer_pos w + NUM_QUBITS)
            (stdout w ++ run_output i (run_result error_rate w))).
Proof.
  unfold simulation_run.
  rewrite (bind_ok _ _ _ _ _ (print_spec _ _)).
  rewrite (bind_ok _ _ _ _ _ (generate_bits_spec _ _)).
  rewrite (bind_ok _ _ _ _ _ (print_spec _ _)).
  rewrite (bind_ok _ _ _ _ _ (generate_bits_spec _ _)).
  rewrite (bind_ok _ _ _ _ _ (print_spec _ _)).
  wsimpl. fold (run_alice_bits w) (run_alice_basis w).
  set (bits := run_alice_bits w). set (a_basis := run_alice_basis w).
  assert (Hbits : length bits = NUM_QUBITS) by apply drawn_bits_length.
  assert (Ha : length a_basis = NUM_QUBITS) by apply drawn_bits_length.
  rewrite <- bind_assoc.
  match goal with |- context [bind (bind (encode_message _ _) _) _ ?w1] =>
    destruct (encode_then_channel bits a_basis error_rate w1)
      as (h1 & Henc & _ & Hh1); [lia|lia|]
  end.
  rewrite (bind_ok _ _ _ _ _ Henc). wsimpl.
  rewrite (bind_ok _ _ _ _ _ (generate_bits_spec _ _)).
  rewrite (bind_ok _ _ _ _ _ (print_spec _ _)).
  wsimpl. fold (run_bob_basis w). set (b_basis := run_bob_basis w).
  assert (Hb : length b_basis = NUM_QUBITS) by apply drawn_bits_length.
  match goal with |- context [bind (measure_message _ _) _ ?w2] =>
    destruct (measure_encoded bits a_basis b_basis (run_flips w error_rate)
                (length (heap w)) w2)
      as (h2 & Hmeas & _); [lia|exact Hh1|]
  end.
  rewrite (bind_ok _ _ _ _ _ Hmeas).
  rewrite (bind_ok _ _ _ _ _ (print_spec _ _)).
  wsimpl.
  set (results := measured bits a_basis b_basis (run_flips w error_rate)
                    (aer_tape w) (aer_pos w)).
  assert (Hlen : length results = NUM_QUBITS) by apply measured_length.
  rewrite (bind_ok _ _ _ _ _
             (remove_garbage_spec a_basis b_basis bits _ ltac:(lia) ltac:(lia)
                (agreeing_in_range a_basis b_basis bits NUM_QUBITS ltac:(lia)))).
  rewrite (bind_ok _ _ _ _ _
             (remove_garbage_spec a_basis b_basis results _ ltac:(lia) ltac:(lia)
                (agreeing_in_range a_basis b_basis results NUM_QUBITS ltac:(lia)))).
  rewrite (bind_ok _ _ _ _ _ (check_keys_spec _ _ _)).
  rewrite (bind_ok _ _ _ _ _ (print_spec _ _)).
  rewrite (bind_ok _ _ _ _ _ (print_spec _ _)).
  exists h2. unfold ret. wsimpl. f_equal. unfold run_output, run_result. simpl.
  fold bits a_basis b_basis results. f_equal.
  rewrite <- !app_assoc. reflexivity.
Qed.

(** ** The stages of a run on given sequences *)

Lemma run_stages_spec (bits a_basis b_basis : list Z) error_rate w :
  (NUM_QUBITS <= length bits)%nat ->
  (NUM_QUBITS <= length a_basis)%nat ->
  (NUM_QUBITS <= length b_basis)%nat ->
  exists w',
    run_stages bits a_basis b_basis error_rate w
    = Ok ((bits !!!.) <$> agreeing a_basis b_basis NUM_QUBITS,
          (measured bits a_basis b_basis
             (flipped_at (np_tape w) (np_pos w) error_rate)
             (aer_tape w) (aer_pos w) !!!.)
            <$> agreeing a_basis b_basis NUM_QUBITS) w'.
Proof.
  intros Hbits Ha Hb. unfold run_stages.
  rewrite <- bind_assoc.
  destruct (encode_then_channel bits a_basis error_rate w Hbits Ha)
    as (h1 & Henc & _ & Hh1).
  rewrite (bind_ok _ _ _ _ _ Henc).
  match goal with |- context [bind (measure_message _ _) _ ?w2] =>
    destruct (measure_encoded bits a_basis b_basis
                (flipped_at (np_tape w) (np_pos w) error_rate)
                (length (heap w)) w2 Hb Hh1)
      as (h2 & Hmeas & _)
  end.
  rewrite (bind_ok _ _ _ _ _ Hmeas). wsimpl.
  rewrite (bind_ok _ _ _ _ _
             (remove_garbage_spec a_basis b_basis bits _ Ha Hb
                (agreeing_in_range _ _ bits _ Hbits))).
  match goal with |- context [remove_garbage _ _ ?results] =>
    rewrite (bind_ok _ _ _ _ _
               (remove_garbage_spec a_basis b_basis results _ Ha Hb
                  (agreeing_in_range a_basis b_basis results NUM_QUBITS
                     ltac:(rewrite measured_length; lia))))
  end.
  eexists. reflexivity.
Qed.

(** When no qubit is flipped, the receiver's key is the sender's. *)
Lemma keys_agree (bits a_basis b_basis : list Z) (flips : nat -> bool) tape pos :
  (forall q, (q < NUM_QUBITS)%nat -> is_bit (bits !!! q)) ->
  (forall q, (q < NUM_QUBITS)%nat -> is_bit (a_basis !!! q)) ->
  (forall q, flips q = false) ->
  (measured bits a_basis b_basis flips tape pos !!!.)
    <$> agreeing a_basis b_basis NUM_QUBITS
  = (bits !!!.) <$> agreeing a_basis b_basis NUM_QUBITS.
Proof.
  intros Hbit Hbas Hflips. apply Forall_fmap_ext, Forall_forall. intros q Hq.
  apply agreeing_lt in Hq as [Hq Hsame].
  rewrite measured_matching by auto. rewrite Hflips. reflexivity.
Qed.

Lemma never_flipped_at_zero tape pos q : flipped_at tape pos 0 q = false.
Proof. apply no_flip_at_zero. Qed.

(** ** Inputs that hold bits *)

Lemma all_bits_lookup xs q :
  all_bits xs = true -> (q < length xs)%nat -> is_bit (xs !!! q).
Proof.
  intros Hall Hq. unfold all_bits in Hall. rewrite forallb_forall in Hall.
  assert (Hin : In (xs !!! q) xs).
  { apply list_elem_of_In. eapply list_elem_of_lookup_2.
    apply list_lookup_lookup_total_lt. exact Hq. }
  specialize (Hall _ Hin). unfold is_bitb in Hall.
  apply orb_true_iff in Hall as [H | H]; apply Z.eqb_eq in H; [left|right]; exact H.
Qed.

Lemma all_bits_take xs n q :
  all_bits (take n xs) = true -> (n <= length xs)%nat -> (q < n)%nat ->
  is_bit (xs !!! q).
Proof.
  intros Hall Hn Hq. rewrite <- (lookup_total_take_lt xs n q Hq).
  apply all_bits_lookup; [exact Hall|]. rewrite length_take_le; lia.
Qed.

(** ** Measuring in the encoding basis *)

(** C2. Measuring each qubit in the basis it was encoded in returns the
    encoded bit, whatever samples the simulator draws: for sender bits and
    bases that hold bits, [measure_message] applied to the result of
    [encode_message] with the same bases returns the first [NUM_QUBITS]
    bits, from every world. *)
Theorem measure_in_encoding_basis (bits basis : list Z) (w : World) :
  (NUM_QUBITS <= length bits)%nat ->
  (NUM_QUBITS <= length basis)%nat ->
  all_bits (take NUM_QUBITS bits) = true ->
  all_bits (take NUM_QUBITS basis) = true ->
  exists w',
    (message <- encode_message bits basis ;; measure_message message basis) w
    = Ok (take NUM_QUBITS bits) w'.
Proof.
  intros Hbits Hbasis Hbit Hbas.
  rewrite (bind_ok _ _ _ _ _ (encode_message_spec bits basis w Hbits Hbasis)).
  match goal with |- context [measure_message _ _ ?w1] =>
    destruct (measure_encoded bits basis basis (fun _ => false)
                (length (heap w)) w1 Hbasis) as (h' & Hmeas & _)
  end.
  - intros i Hi. wsimpl. rewrite lookup_app_r by lia.
    replace (length (heap w) + i - length (heap w))%nat with i by lia.
    unfold encoded. rewrite list_lookup_fmap, lookup_seq_lt by exact Hi.
    simpl. rewrite app_nil_r. reflexivity.
  - eexists. rewrite Hmeas. f_equal.
    apply (list_eq_same_length _ _ NUM_QUBITS);
      [rewrite length_take_le; lia|apply measured_length|].
    intros q x y Hq Hx Hy.
    apply list_lookup_total_correct in Hx. apply list_lookup_total_correct in Hy.
    rewrite <- Hx, <- Hy, lookup_total_take_lt by exact Hq.
    rewrite measured_matching;
      [reflexivity|exact Hq|eapply all_bits_take; eassumption
      |eapply all_bits_take; eassumption|reflexivity].
Qed.

Lemma measure_in_encoding_basis_witness :
  exists w',
    (message <- encode_message (repeat 1 32) (repeat 0 16 ++ repeat 1 16) ;;
     measure_message message (repeat 0 16 ++ repeat 1 16))
      (start_world (fun _ => 0%N) (fun _ => true))
    = Ok (take NUM_QUBITS (repeat 1 32)) w'.
Proof.
  apply (measure_in_encoding_basis (repeat 1 32) (repeat 0 16 ++ repeat 1 16)).
  - vm_compute. lia.
  - vm_compute. lia.
  - reflexivity.
  - reflexivity.
Defined.

(** ** The ideal channel *)

Lemma ideal_channel_counterexample :
  ~ exists key w',
      run_stages [1; 0; 1; 0] [0; 0; 1; 1] [0; 1; 1; 0] 0
        (start_world (fun _ => 0%N) (fun _ => false))
      = Ok (key, key) w'.
Proof. intros (key & w' & H). vm_compute in H. discriminate H. Qed.

Lemma ideal_run_keys error_rate w :
  error_rate = 0%Q ->
  bob_key (run_result error_rate w) = alice_key (run_result error_rate w).
Proof.
  intros ->. unfold run_result. cbn [bob_key alice_key]. apply keys_agree.
  - intros q Hq. apply drawn_bits_is_bit, Hq.
  - intros q Hq. apply drawn_bits_is_bit, Hq.
  - intros q. apply never_flipped_at_zero.
Qed.

Lemma ideal_run_output i w : KeysDifferent ∉ run_output i (run_result 0 w).
Proof.
  unfold run_output, verdict.
  rewrite ideal_run_keys, bool_decide_eq_true_2 by reflexivity.
  rewrite !not_elem_of_cons. repeat split; try discriminate.
  apply not_elem_of_nil.
Qed.

Lemma ideal_runs_never_differ num_iterations first w :
  KeysDifferent ∉ stdout w ->
  exists w',
    for_each (fun _ i => _r <- simulation_run 0 i ;; ret tt)
      (seq first num_iterations) tt w
    = Ok tt w'
    /\ KeysDifferent ∉ stdout w'.
Proof.
  revert first w. induction num_iterations as [|n IH]; intros first w Hout.
  - exists w. split; [reflexivity|exact Hout].
  - destruct (simulation_run_spec 0 first w) as (h' & Hrun).
    simpl. unfold bind at 1 2. rewrite Hrun. unfold ret at 1.
    apply IH. cbn [stdout]. rewrite not_elem_of_app.
    split; [exact Hout|apply ideal_run_output].
Qed.

(** C1, for the length the program runs with. With [error_rate = 0] and
    no eavesdropper, for all sender bits, sender bases and receiver bases
    of length [NUM_QUBITS] that hold bits, the stages of a run return a
    receiver key equal to the sender key. A run, which draws such sequences
    itself, ends with equal keys from every world and prints that the keys
    are the same; [quantum_communication] completes every run it is asked
    for and never prints that the keys differ. *)
Theorem ideal_channel_round_trip (bits a_basis b_basis : list Z)
    (i num_iterations : nat) (w : World) :
  length bits = NUM_QUBITS ->
  length a_basis = NUM_QUBITS ->
  length b_basis = NUM_QUBITS ->
  all_bits bits = true ->
  all_bits a_basis = true ->
  (exists key w', run_stages bits a_basis b_basis 0 w = Ok (key, key) w')
  /\ (exists r w',
        simulation_run 0 i w = Ok r w'
        /\ length (alice_bits r) = NUM_QUBITS
        /\ bob_key r = alice_key r
        /\ KeysSame ∈ stdout w')
  /\ (KeysDifferent ∉ stdout w ->
      exists w',
        quantum_communication 0 num_iterations w = Ok tt w'
        /\ KeysDifferent ∉ stdout w').
Proof.
  intros Hbits Ha Hb Hbit Hbas. split; [|split].
  - destruct (run_stages_spec bits a_basis b_basis 0 w) as (w' & Hrun); [lia..|].
    eexists _, w'. rewrite Hrun. do 2 f_equal.
    apply keys_agree.
    + intros q Hq. apply all_bits_lookup; [exact Hbit|lia].
    + intros q Hq. apply all_bits_lookup; [exact Hbas|lia].
    + intros q. apply never_flipped_at_zero.
  - destruct (simulation_run_spec 0 i w) as (h' & Hrun).
    pose proof (ideal_run_keys 0 w eq_refl) as Hkeys.
    eexists _, _. split; [exact Hrun|].
    split; [apply drawn_bits_length|]. split; [exact Hkeys|].
    cbn [stdout]. apply elem_of_app. right. unfold run_output, verdict.
    rewrite Hkeys, bool_decide_eq_true_2 by reflexivity.
    rewrite !elem_of_cons. auto 20.
  - apply ideal_runs_never_differ.
Qed.

Lemma ideal_channel_round_trip_witness :
  (exists key w',
      run_stages (repeat 1 32) (repeat 0 32) (repeat 0 16 ++ repeat 1 16) 0
        (start_world (fun _ => 5%N) (fun _ => true))
      = Ok (key, key) w')
  /\ (exists r w',
        simulation_run 0 1 (start_world (fun _ => 5%N) (fun _ => true)) = Ok r w'
        /\ length (alice_bits r) = NUM_QUBITS
        /\ bob_key r = alice_key r
        /\ KeysSame ∈ stdout w')
  /\ (KeysDifferent ∉ stdout (start_world (fun _ => 5%N) (fun _ => true)) ->
      exists w',
        quantum_communication 0 3 (start_world (fun _ => 5%N) (fun _ => true))
        = Ok tt w'
        /\ KeysDifferent ∉ stdout w').
Proof.
  apply (ideal_channel_round_trip (repeat 1 32) (repeat 0 32)
           (repeat 0 16 ++ repeat 1 16)); reflexivity.
Defined.

(** ** Sequences shorter or longer than [NUM_QUBITS] *)


Lemma seq_middle (m n : nat) :
  (m < n)%nat -> seq 0 n = seq 0 m ++ m :: seq (S m) (n - S m).
Proof.
  intros Hm. replace n with (m + S (n - S m))%nat at 1 by lia.
  rewrite seq_app. reflexivity.
Qed.


Lemma encode_message_take bits basis w :
  encode_message bits basis w
  = encode_message (take NUM_QUBITS bits) (take NUM_QUBITS basis) w.
Proof.
  unfold encode_message, range. apply for_each_ext.
  intros q message w1 Hq. apply elem_of_seq in Hq.
  unfold bind, index. rewrite !lookup_take_lt by lia. reflexivity.
Qed.

Lemma measure_message_take (message : list loc) basis w :
  measure_message message basis w
  = measure_message (take NUM_QUBITS message) (take NUM_QUBITS basis) w.
Proof.
  unfold measure_message, range. apply for_each_ext.
  intros q measurements w1 Hq. apply elem_of_seq in Hq.
  unfold bind, index. rewrite !lookup_take_lt by lia. reflexivity.
Qed.

Lemma encode_message_short bits basis w :
  (length bits < NUM_QUBITS)%nat \/ (length basis < NUM_QUBITS)%nat ->
  exists w', encode_message bits basis w = Raise IndexError w'.
Proof.
  intros Hshort. unfold encode_message, range.
  set (m := (length bits `min` length basis)%nat).
  rewrite (seq_middle m) by lia.
  apply for_each_raise.
  - intros q message w1 Hq. apply elem_of_seq in Hq.
    eexists _, _. apply (encode_slot bits basis q (bits !!! q) (basis !!! q));
      apply list_lookup_lookup_total_lt; lia.
  - intros message w1. unfold bind, new_circuit, index.
    destruct (basis !! m) as [c|] eqn:Hc.
    + assert (Hb : bits !! m = None).
      { apply lookup_ge_None_2. apply lookup_lt_Some in Hc. lia. }
      unfold ret. destruct (c =? 0); rewrite Hb; eexists; reflexivity.
    + eexists. reflexivity.
Qed.

Lemma measure_slot_total (message : list loc) (basis : list Z) q
    (measurements : list Z) w :
  (q < length message)%nat -> (q < length basis)%nat ->
  exists result w',
    (c <- index basis q ;;
     (if c =? 1 then qc <- index message q ;; append_instruction HGate qc
      else ret tt) ;;;
     qc <- index message q ;;
     append_instruction MeasureOp qc ;;;
     qc <- index message q ;;
     result <- backend_run qc ;;
     ret (measurements ++ [result])) w
    = Ok (measurements ++ [result]) w'.
Proof.
  intros Hm Hb.
  destruct (lookup_lt_is_Some_2 message q Hm) as [l Hl].
  destruct (lookup_lt_is_Some_2 basis q Hb) as [c Hc].
  unfold bind, index. rewrite Hc. unfold ret at 1.
  destruct (c =? 1); rewrite Hl; unfold ret, append_instruction, backend_run;
    cbn [heap set_heap aer_tape aer_pos];
    match goal with |- context [execute ?qc ?t ?p ?k ?b] =>
      destruct (execute qc t p k b) as [r p'] end;
    eexists _, _; reflexivity.
Qed.

Lemma measure_message_length (message : list loc) basis w :
  (NUM_QUBITS <= length message)%nat -> (NUM_QUBITS <= length basis)%nat ->
  exists results w',
    measure_message message basis w = Ok results w'
    /\ length results = NUM_QUBITS.
Proof.
  intros Hm Hb. unfold measure_message, range.
  match goal with |- context [for_each ?b ?xs ?a ?w] =>
    destruct (for_each_invariant b
      (fun done (acc : list Z) (w' : World) => length acc = length done) xs a w)
      as (acc' & w' & Heq & Hlen)
  end.
  - reflexivity.
  - intros done q rest acc1 w1 Hsplit Hacc.
    apply seq_split in Hsplit as (_ & -> & Hlt & _). simpl in Hlt.
    destruct (measure_slot_total message basis (0 + length done) acc1 w1)
      as (r & w2 & Hslot); [simpl; lia..|].
    eexists _, _. split; [exact Hslot|].
    rewrite !length_app, Hacc. reflexivity.
  - exists acc', w'. split; [exact Heq|]. rewrite Hlen. apply length_seq.
Qed.

Lemma measure_message_short (message : list loc) basis w :
  (length message < NUM_QUBITS)%nat \/ (length basis < NUM_QUBITS)%nat ->
  exists w', measure_message message basis w = Raise IndexError w'.
Proof.
  intros Hshort. unfold measure_message, range.
  set (m := (length message `min` length basis)%nat).
  rewrite (seq_middle m) by lia.
  apply for_each_raise.
  - intros q measurements w1 Hq. apply elem_of_seq in Hq.
    destruct (measure_slot_total message basis q measurements w1)
      as (r & w2 & Hslot); [lia..|].
    eexists _, _. exact Hslot.
  - intros measurements w1. unfold bind, index.
    destruct (basis !! m) as [c|] eqn:Hc.
    + assert (Hl : message !! m = None).
      { apply lookup_ge_None_2. apply lookup_lt_Some in Hc. lia. }
      unfold ret at 1. destruct (c =? 1); rewrite Hl; eexists; reflexivity.
    + eexists. reflexivity.
Qed.

Lemma remove_garbage_short_basis (a_basis b_basis bits : list Z) w :
  (length a_basis < NUM_QUBITS)%nat \/ (length b_basis < NUM_QUBITS)%nat ->
  exists w', remove_garbage a_basis b_basis bits w = Raise IndexError w'.
Proof.
  intros Hshort. unfold remove_garbage, range.
  set (m := (length a_basis `min` length b_basis)%nat).
  match goal with |- context [for_each ?b (seq 0 NUM_QUBITS) ?a] =>
    destruct (for_each_raise b (seq 0 m) m (seq (S m) (NUM_QUBITS - S m))
                IndexError a w) as (w' & Hraise)
  end.
  - intros q acc w1 Hq. apply elem_of_seq in Hq. unfold bind.
    rewrite (index_ok a_basis q (a_basis !!! q))
      by (apply list_lookup_lookup_total_lt; lia).
    rewrite (index_ok b_basis q (b_basis !!! q))
      by (apply list_lookup_lookup_total_lt; lia).
    eexists _, _. reflexivity.
  - intros acc w1. unfold bind, index.
    destruct (a_basis !! m) as [a|] eqn:Ha.
    + assert (Hb : b_basis !! m = None).
      { apply lookup_ge_None_2. apply lookup_lt_Some in Ha. lia. }
      unfold ret. rewrite Hb. eexists. reflexivity.
    + eexists. reflexivity.
  - rewrite <- (seq_middle m) in Hraise by lia.
    exists w'. apply bind_raise. exact Hraise.
Qed.

(** ** Sifting *)

Lemma sift_spec_snoc basisA basisB bits a b x :
  length basisA = length basisB -> length basisA = length bits ->
  sift_spec (basisA ++ [a]) (basisB ++ [b]) (bits ++ [x])
  = sift_spec basisA basisB bits ++ (if a =? b then [x] else []).
Proof.
  revert basisB bits.
  induction basisA as [|a' basisA IH]; intros [|b' basisB] [|x' bits] HB HX;
    simpl in *; try discriminate.
  - destruct (a =? b); reflexivity.
  - rewrite IH by lia. destruct (a' =? b'); reflexivity.
Qed.

Lemma agreement_count_spec_snoc basisA basisB a b :
  length basisA = length basisB ->
  agreement_count_spec (basisA ++ [a]) (basisB ++ [b])
  = (agreement_count_spec basisA basisB + (if (a =? b)%Z then 1 else 0))%nat.
Proof.
  revert basisB.
  induction basisA as [|a' basisA IH]; intros [|b' basisB] HB;
    simpl in *; try discriminate.
  - destruct (a =? b); reflexivity.
  - rewrite IH by lia. destruct (a' =? b'); reflexivity.
Qed.

Lemma take_snoc_total (xs : list Z) n :
  (n < length xs)%nat -> take (S n) xs = take n xs ++ [xs !!! n].
Proof.
  intros Hn. apply take_S_r. apply list_lookup_lookup_total_lt. exact Hn.
Qed.

Lemma agreeing_sift (a_basis b_basis bits : list Z) n :
  (n <= length a_basis)%nat -> (n <= length b_basis)%nat ->
  (n <= length bits)%nat ->
  (bits !!!.) <$> agreeing a_basis b_basis n
  = sift_spec (take n a_basis) (take n b_basis) (take n bits).
Proof.
  induction n as [|n IH]; intros Ha Hb Hx; [reflexivity|].
  rewrite agreeing_S, fmap_app, IH by lia.
  rewrite !take_snoc_total by lia.
  rewrite sift_spec_snoc by (rewrite !length_take_le; lia).
  destruct (_ =? _); reflexivity.
Qed.

Lemma agreeing_count (a_basis b_basis : list Z) n :
  (n <= length a_basis)%nat -> (n <= length b_basis)%nat ->
  length (agreeing a_basis b_basis n)
  = agreement_count_spec (take n a_basis) (take n b_basis).
Proof.
  induction n as [|n IH]; intros Ha Hb; [reflexivity|].
  rewrite agreeing_S, length_app, IH by lia.
  rewrite !take_snoc_total by lia.
  rewrite agreement_count_spec_snoc by (rewrite !length_take_le; lia).
  destruct (_ =? _); reflexivity.
Qed.

Lemma remove_garbage_counterexample :
  ~ exists w',
      remove_garbage [] [] [] (start_world (fun _ => 0%N) (fun _ => false))
      = Ok (sift_spec [] [] []) w'.
Proof. intros (w' & H). vm_compute in H. discriminate H. Qed.

(** C3, for sequences that cover the [NUM_QUBITS] slots [remove_garbage]
    reads. For sequences of at least [NUM_QUBITS] elements each,
    [remove_garbage] returns the specification's sift of their first
    [NUM_QUBITS] elements (for sequences of exactly that length, of the
    sequences themselves), in ascending order, prints the agreeing
    positions and changes nothing else; the length of the result is the
    number of agreeing positions. *)
Theorem remove_garbage_sifts (a_basis b_basis bits : list Z) (w : World) :
  (NUM_QUBITS <= length a_basis)%nat ->
  (NUM_QUBITS <= length b_basis)%nat ->
  (NUM_QUBITS <= length bits)%nat ->
  remove_garbage a_basis b_basis bits w
  = Ok (sift_spec (take NUM_QUBITS a_basis) (take NUM_QUBITS b_basis)
          (take NUM_QUBITS bits))
       (set_stdout
          (stdout w ++ [MatchingPositions (agreeing a_basis b_basis NUM_QUBITS)])
          w)
  /\ length (sift_spec (take NUM_QUBITS a_basis) (take NUM_QUBITS b_basis)
               (take NUM_QUBITS bits))
     = agreement_count_spec (take NUM_QUBITS a_basis) (take NUM_QUBITS b_basis)
  /\ (length a_basis = NUM_QUBITS -> length b_basis = NUM_QUBITS ->
      length bits = NUM_QUBITS ->
      remove_garbage a_basis b_basis bits w
      = Ok (sift_spec a_basis b_basis bits)
           (set_stdout
              (stdout w
               ++ [MatchingPositions (agreeing a_basis b_basis NUM_QUBITS)]) w)).
Proof.
  intros Ha Hb Hx.
  assert (Hrun : remove_garbage a_basis b_basis bits w
                 = Ok (sift_spec (take NUM_QUBITS a_basis)
                         (take NUM_QUBITS b_basis) (take NUM_QUBITS bits))
                      (set_stdout
                         (stdout w
                          ++ [MatchingPositions
                                (agreeing a_basis b_basis NUM_QUBITS)]) w)).
  { rewrite <- agreeing_sift by assumption.
    apply remove_garbage_spec; [assumption..|].
    apply agreeing_in_range. exact Hx. }
  split; [exact Hrun|]. split.
  - rewrite <- agreeing_sift, length_fmap by assumption.
    apply agreeing_count; assumption.
  - intros Ha' Hb' Hx'. rewrite Hrun. rewrite !take_ge by lia. reflexivity.
Qed.

Lemma remove_garbage_sifts_witness :
  remove_garbage (repeat 0 32) (repeat 0 16 ++ repeat 1 16) (repeat 1 32)
    (start_world (fun _ => 0%N) (fun _ => false))
  = Ok (repeat 1 16)
       (set_stdout [MatchingPositions (seq 0 16)]
          (start_world (fun _ => 0%N) (fun _ => false))).
Proof.
  destruct (remove_garbage_sifts (repeat 0 32) (repeat 0 16 ++ repeat 1 16)
              (repeat 1 32) (start_world (fun _ => 0%N) (fun _ => false)))
    as (Hrun & _ & _).
  - vm_compute. lia.
  - vm_compute. lia.
  - vm_compute. lia.
  - exact Hrun.
Defined.

(** ** The four-slot scenario *)

Lemma scenario_counterexample :
  ~ exists w',
      remove_garbage [0; 0; 1; 1] [0; 1; 1; 0] [1; 0; 1; 0]
        (start_world (fun _ => 0%N) (fun _ => false))
      = Ok [1; 1] w'.
Proof. intros (w' & H). vm_compute in H. discriminate H. Qed.

(** C7, with the scenario laid out in the [NUM_QUBITS] slots the program
    works on. The sift keeps exactly the positions 0 and 2 and the
    sender's sifted key is [1; 1]; with [error_rate = 0] and no
    eavesdropper the receiver's sifted key is [1; 1] too, whatever the
    simulator samples. *)
Theorem scenario_keys (w : World) :
  remove_garbage scenario_a_basis scenario_b_basis scenario_bits w
  = Ok [1; 1] (set_stdout (stdout w ++ [MatchingPositions [0; 2]%nat]) w)
  /\ exists w',
       run_stages scenario_bits scenario_a_basis scenario_b_basis 0 w
       = Ok ([1; 1], [1; 1]) w'.
Proof.
  assert (Hpos : agreeing scenario_a_basis scenario_b_basis NUM_QUBITS
                 = [0; 2]%nat) by reflexivity.
  split.
  - rewrite remove_garbage_spec.
    + rewrite Hpos. reflexivity.
    + vm_compute. lia.
    + vm_compute. lia.
    + rewrite Hpos. repeat constructor; vm_compute; lia.
  - destruct (run_stages_spec scenario_bits scenario_a_basis scenario_b_basis
                0 w) as (w' & Hrun); [vm_compute; lia..|].
    exists w'. rewrite Hrun.
    rewrite keys_agree.
    + rewrite Hpos. reflexivity.
    + intros q Hq. apply all_bits_lookup; [reflexivity|exact Hq].
    + intros q Hq. apply all_bits_lookup; [reflexivity|exact Hq].
    + intros q. apply never_flipped_at_zero.
Qed.

(** ** The slots the stages read *)

Lemma short_bits_counterexample :
  remove_garbage (repeat 0 32) (repeat 1 32) []
    (start_world (fun _ => 0%N) (fun _ => false))
  = Ok [] (set_stdout [MatchingPositions []]
             (start_world (fun _ => 0%N) (fun _ => false))).
Proof. reflexivity. Qed.

(** C10, with the sifter's failure stated as the code has it.
    [encode_message], [measure_message] and [remove_garbage] read the
    slots 0 to [NUM_QUBITS - 1] of their arguments and nothing else.
    The encoder and the measurer return [NUM_QUBITS] elements when both
    arguments have at least that many, and raise [IndexError] when one of
    them is shorter. The sifter returns the bits at the agreeing positions
    below [NUM_QUBITS]; it raises [IndexError] when a basis sequence is
    shorter than [NUM_QUBITS], or when [bits] does not reach an agreeing
    position, and only then: a short [bits] that covers every agreeing
    position is accepted. *)
Theorem stages_read_num_qubits_slots (bits basis a_basis b_basis : list Z)
    (message : list loc) (w : World) :
  (encode_message bits basis w
   = encode_message (take NUM_QUBITS bits) (take NUM_QUBITS basis) w
   /\ ((NUM_QUBITS <= length bits)%nat -> (NUM_QUBITS <= length basis)%nat ->
       exists circuits w',
         encode_message bits basis w = Ok circuits w'
         /\ length circuits = NUM_QUBITS)
   /\ ((length bits < NUM_QUBITS)%nat \/ (length basis < NUM_QUBITS)%nat ->
       exists w', encode_message bits basis w = Raise IndexError w'))
  /\ (measure_message message basis w
      = measure_message (take NUM_QUBITS message) (take NUM_QUBITS basis) w
      /\ ((NUM_QUBITS <= length message)%nat -> (NUM_QUBITS <= length basis)%nat ->
          exists results w',
            measure_message message basis w = Ok results w'
            /\ length results = NUM_QUBITS)
      /\ ((length message < NUM_QUBITS)%nat \/ (length basis < NUM_QUBITS)%nat ->
          exists w', measure_message message basis w = Raise IndexError w'))
  /\ (((NUM_QUBITS <= length a_basis)%nat -> (NUM_QUBITS <= length b_basis)%nat ->
       Forall (fun q => (q < length bits)%nat)
         (agreeing a_basis b_basis NUM_QUBITS) ->
       exists key w',
         remove_garbage a_basis b_basis bits w = Ok key w'
         /\ key = (bits !!!.) <$> agreeing a_basis b_basis NUM_QUBITS
         /\ length key
            = agreement_count_spec (take NUM_QUBITS a_basis)
                (take NUM_QUBITS b_basis))
      /\ ((length a_basis < NUM_QUBITS)%nat \/ (length b_basis < NUM_QUBITS)%nat
          \/ ~ Forall (fun q => (q < length bits)%nat)
                 (agreeing a_basis b_basis NUM_QUBITS) ->
          exists w', remove_garbage a_basis b_basis bits w = Raise IndexError w')).
Proof.
  split; [|split].
  - split; [apply encode_message_take|]. split.
    + intros Hbits Hbasis. eexists _, _.
      split; [apply encode_message_spec; assumption|apply length_seq].
    + apply encode_message_short.
  - split; [apply measure_message_take|]. split.
    + apply measure_message_length.
    + apply measure_message_short.
  - split.
    + intros Ha Hb Hbits. eexists _, _.
      split; [apply remove_garbage_spec; assumption|].
      split; [reflexivity|]. rewrite length_fmap.
      apply agreeing_count; assumption.
    + intros Hshort.
      destruct (decide (length a_basis < NUM_QUBITS)%nat) as [Ha|Ha];
        [apply remove_garbage_short_basis; by left|].
      destruct (decide (length b_basis < NUM_QUBITS)%nat) as [Hb|Hb];
        [apply remove_garbage_short_basis; by right|].
      destruct Hshort as [?|[?|Hbits]]; [lia|lia|].
      eexists. apply remove_garbage_short_bits; [lia|lia|exact Hbits].
Qed.

Lemma stages_read_num_qubits_slots_witness :
  (exists circuits w',
      encode_message (repeat 1 32) (repeat 0 32) channel_example_world
      = Ok circuits w'
      /\ length circuits = NUM_QUBITS)
  /\ (exists w',
        measure_message (seq 0 31) (repeat 0 32) channel_example_world
        = Raise IndexError w')
  /\ (exists key w',
        remove_garbage (repeat 0 32) (repeat 0 32) (repeat 1 32)
          channel_example_world
        = Ok key w'
        /\ key = (repeat 1 32 !!!.) <$> agreeing (repeat 0 32) (repeat 0 32) NUM_QUBITS
        /\ length key
           = agreement_count_spec (take NUM_QUBITS (repeat 0 32))
               (take NUM_QUBITS (repeat 0 32))).
Proof.
  destruct (stages_read_num_qubits_slots (repeat 1 32) (repeat 0 32)
              (repeat 0 32) (repeat 0 32) (seq 0 31) channel_example_world)
    as ((_ & Henc & _) & (_ & _ & Hmeas) & (Hsift & _)).
  split; [|split].
  - apply Henc; vm_compute; lia.
  - apply Hmeas. left. vm_compute. lia.
  - apply Hsift.
    + vm_compute. lia.
    + vm_compute. lia.
    + apply (bool_decide_unpack _). vm_compute. reflexivity.
Defined.

(** ** The channel *)

Lemma raw_uniform_range (r : N) :
  (0 <= raw_uniform r)%Q /\ (raw_uniform r < 1)%Q.
Proof.
  unfold raw_uniform, Qle, Qlt. simpl. rewrite !Z.mul_1_r. split.
  - apply N2Z.is_nonneg.
  - rewrite Z.mul_1_l.
    change (Z.pos 9007199254740992) with (Z.of_N 9007199254740992).
    apply (proj1 (N2Z.inj_lt _ _)), N.mod_lt. discriminate.
Qed.

Lemma never_flips error_rate (r : N) :
  (error_rate <= 0)%Q -> Qltb (raw_uniform r) error_rate = false.
Proof.
  intros He. unfold Qltb. apply negb_false_iff, Qle_bool_iff.
  apply (Qle_trans _ 0); [exact He|apply raw_uniform_range].
Qed.

Lemma always_flips error_rate (r : N) :
  (1 <= error_rate)%Q -> Qltb (raw_uniform r) error_rate = true.
Proof.
  intros He. unfold Qltb. apply negb_true_iff.
  destruct (Qle_bool error_rate (raw_uniform r)) eqn:Hle; [|reflexivity].
  apply Qle_bool_iff in Hle. exfalso.
  apply (Qlt_irrefl 1).
  apply (Qle_lt_trans _ (raw_uniform r));
    [apply (Qle_trans _ error_rate); assumption|apply raw_uniform_range].
Qed.

Lemma channel_never_flips (message : list loc) error_rate w :
  (error_rate <= 0)%Q ->
  simulate_quantum_channel message error_rate w
  = Ok message (set_np_pos (np_pos w + length message) w).
Proof.
  intros He. unfold simulate_quantum_channel.
  match goal with |- for_each ?b ?xs ?a ?w = _ =>
    destruct (for_each_invariant b
      (fun done acc w' =>
         acc = done /\ w' = set_np_pos (np_pos w + length done) w) xs a w)
      as (acc' & w' & Heq & Hacc & Hw)
  end.
  - split; [reflexivity|]. destruct w. world_eq.
  - intros done x rest acc1 w1 Hsplit [-> ->].
    eexists _, _. split; [apply channel_slot|]. split; [reflexivity|].
    wsimpl. unfold noise_gates. rewrite never_flips by exact He.
    rewrite list_alter_id by (intros c; apply app_nil_r).
    rewrite length_app. simpl. destruct w. world_eq.
  - rewrite Heq, Hacc, Hw. reflexivity.
Qed.

Lemma channel_counterexample :
  exists w',
    simulate_quantum_channel [0%nat] (1 # 2) channel_example_world
    = Ok [0%nat] w'
    /\ prepare (heap w' !!! 0%nat) Ket0
       <> prepare (heap channel_example_world !!! 0%nat) Ket0.
Proof. eexists. split; [vm_compute; reflexivity|]. discriminate. Qed.

(** C5, as the code shares its circuits. [simulate_quantum_channel]
    returns a list of the very circuit objects it was given, in the same
    order, and consumes one uniform draw per circuit. With
    [error_rate = 0] it changes no circuit. In general it leaves the
    circuits outside the message alone and appends an X gate, in place,
    to each circuit of the message whose draw is below [error_rate]: after
    the call the elements of the input are the circuits after the noise. *)
Theorem channel_shares_circuits (message : list loc) (error_rate : Q)
    (w : World) :
  exists h',
    simulate_quantum_channel message error_rate w
    = Ok message (set_np_pos (np_pos w + length message) (set_heap h' w))
    /\ (error_rate = 0%Q -> h' = heap w)
    /\ (forall l, l ∉ message -> h' !! l = heap w !! l)
    /\ (NoDup message -> forall i l, message !! i = Some l ->
        h' !! l
        = (fun c => c ++ noise_gates (np_tape w) (np_pos w + i) error_rate)
            <$> heap w !! l).
Proof.
  destruct (simulate_quantum_channel_spec message error_rate w)
    as (h' & Heq & _ & Hframe & Hflip).
  exists h'. split; [exact Heq|]. split; [|split; assumption].
  intros ->. rewrite channel_never_flips in Heq by apply Qle_refl.
  injection Heq as Heq. symmetry. exact Heq.
Qed.

Lemma channel_shares_circuits_witness :
  exists h',
    simulate_quantum_channel [0%nat] (1 # 2) channel_example_world
    = Ok [0%nat] (set_np_pos 1 (set_heap h' channel_example_world))
    /\ h' !! 0%nat = Some [BarrierOp; XGate].
Proof.
  destruct (channel_shares_circuits [0%nat] (1 # 2) channel_example_world)
    as (h' & Hrun & _ & _ & Hflip).
  exists h'. split; [exact Hrun|].
  apply (Hflip ltac:(repeat constructor; rewrite elem_of_nil; tauto) 0%nat 0%nat).
  reflexivity.
Defined.

(** ** What is checked, and what is not *)

Lemma no_validation_counterexample :
  (exists w',
      check_keys [0] [0; 1] (start_world (fun _ => 0%N) (fun _ => false))
      = Ok tt w')
  /\ (exists w',
        remove_garbage (repeat 0 32) (repeat 0 40) (repeat 1 33)
          (start_world (fun _ => 0%N) (fun _ => false))
        = Ok (repeat 1 32) w')
  /\ (exists w',
        simulate_quantum_channel [0%nat] 2
          (mkWorld [[BarrierOp]] (fun _ => 0%N) 0 (fun _ => false) 0 [])
        = Ok [0%nat] w')
  /\ (exists w',
        simulate_quantum_channel [0%nat] (-1)
          (mkWorld [[BarrierOp]] (fun _ => 0%N) 0 (fun _ => false) 0 [])
        = Ok [0%nat] w').
Proof.
  split; [|split; [|split]]; eexists; vm_compute; reflexivity.
Qed.

(** C8, as the code has it: nothing is validated. [check_keys] accepts
    keys of different lengths and returns normally. [remove_garbage]
    accepts sequences of different lengths as long as each has
    [NUM_QUBITS] elements; its one failure is the [IndexError] of a
    sequence that is too short. [simulate_quantum_channel] accepts every
    [error_rate]: at or below 0 it flips nothing, at or above 1 it appends
    an X gate to every circuit (of a message without repeats). *)
Theorem nothing_is_validated (key1 key2 a_basis b_basis bits : list Z)
    (message : list loc) (error_rate : Q) (w : World) :
  (exists w', check_keys key1 key2 w = Ok tt w')
  /\ ((NUM_QUBITS <= length a_basis)%nat -> (NUM_QUBITS <= length b_basis)%nat ->
      (NUM_QUBITS <= length bits)%nat ->
      exists key w', remove_garbage a_basis b_basis bits w = Ok key w')
  /\ (forall e w', remove_garbage a_basis b_basis bits w = Raise e w' ->
      e = IndexError
      /\ ((length a_basis < NUM_QUBITS)%nat \/ (length b_basis < NUM_QUBITS)%nat
          \/ (length bits < NUM_QUBITS)%nat))
  /\ (exists h',
        simulate_quantum_channel message error_rate w
        = Ok message (set_np_pos (np_pos w + length message) (set_heap h' w))
        /\ ((error_rate <= 0)%Q -> h' = heap w)
        /\ ((1 <= error_rate)%Q -> NoDup message ->
            forall l, l ∈ message ->
              h' !! l = (fun c => c ++ [XGate]) <$> heap w !! l)).
Proof.
  split; [|split; [|split]].
  - eexists. apply check_keys_spec.
  - intros Ha Hb Hbits. eexists _, _. apply remove_garbage_spec; [assumption..|].
    apply agreeing_in_range. exact Hbits.
  - intros e w' Hraise.
    destruct (decide (NUM_QUBITS <= length a_basis)%nat) as [Ha|Ha];
      [|destruct e; split; [reflexivity|lia]].
    destruct (decide (NUM_QUBITS <= length b_basis)%nat) as [Hb|Hb];
      [|destruct e; split; [reflexivity|lia]].
    destruct (decide (NUM_QUBITS <= length bits)%nat) as [Hbits|Hbits];
      [|destruct e; split; [reflexivity|lia]].
    rewrite remove_garbage_spec in Hraise;
      [discriminate Hraise|assumption..|apply agreeing_in_range; exact Hbits].
  - destruct (simulate_quantum_channel_spec message error_rate w)
      as (h' & Heq & _ & _ & Hflip).
    exists h'. split; [exact Heq|]. split.
    + intros He. rewrite channel_never_flips in Heq by exact He.
      injection Heq as Heq. symmetry. exact Heq.
    + intros He Hnd l Hl. apply list_elem_of_lookup in Hl as [i Hi].
      rewrite (Hflip Hnd i l Hi). unfold noise_gates.
      rewrite always_flips by exact He. reflexivity.
Qed.

Lemma nothing_is_validated_witness :
  (exists w', check_keys [0] [0; 1] channel_example_world = Ok tt w')
  /\ (exists key w',
        remove_garbage (repeat 0 32) (repeat 0 40) (repeat 1 33)
          channel_example_world
        = Ok key w')
  /\ (exists h',
        simulate_quantum_channel [0%nat] 2 channel_example_world
        = Ok [0%nat] (set_np_pos 1 (set_heap h' channel_example_world))
        /\ h' !! 0%nat = Some [BarrierOp; XGate]).
Proof.
  destruct (nothing_is_validated [0] [0; 1] (repeat 0 32) (repeat 0 40)
              (repeat 1 33) [0%nat] 2 channel_example_world)
    as (Hcheck & Hsift & _ & h' & Hrun & _ & Hflip).
  split; [exact Hcheck|]. split.
  - apply Hsift; vm_compute; lia.
  - exists h'. split; [exact Hrun|].
    apply (Hflip ltac:(discriminate)
             ltac:(repeat constructor; rewrite elem_of_nil; tauto) 0%nat).
    apply list_elem_of_here.
Defined.

(** ** Comparing the keys *)

Lemma check_keys_counterexample :
  ~ exists equal_field : unit -> bool,
      forall key1 key2 : list Z,
        match check_keys key1 key2 (start_world (fun _ => 0%N) (fun _ => false)) with
        | Ok r _ => equal_field r = bool_decide (key1 = key2)
        | Raise _ _ => True
        end.
Proof.
  intros (equal_field & H).
  pose proof (H [1] [1]) as Hsame. pose proof (H [1] [0]) as Hdiff.
  vm_compute in Hsame, Hdiff. congruence.
Qed.

(** C9, as the code reports the comparison. [check_keys] returns nothing:
    for every two keys, of equal length or not, it prints the two keys and
    one verdict line, and changes nothing else in the world (the keys are
    values, and no circuit is touched). The verdict is "the same" exactly
    when the keys are equal, that is, when they have the same length and
    the same element at every position. The two lengths are printed by the
    run, after the call. *)
Theorem check_keys_prints_verdict (key1 key2 : list Z) (w : World) :
  check_keys key1 key2 w
  = Ok tt (set_stdout
             (stdout w ++ [AliceKey key1; BobKey key2; verdict key1 key2]) w)
  /\ (verdict key1 key2 = KeysSame <-> key1 = key2)
  /\ (verdict key1 key2 = KeysDifferent <-> key1 <> key2)
  /\ (key1 = key2 <->
      length key1 = length key2 /\ forall i, key1 !! i = key2 !! i)
  /\ (forall error_rate i, exists r w',
        simulation_run error_rate i w = Ok r w'
        /\ KeyLength (length (alice_key r)) (length (bob_key r)) ∈ stdout w').
Proof.
  split; [apply check_keys_spec|]. unfold verdict.
  split; [|split; [|split]].
  - case_bool_decide; split; intros; [assumption|reflexivity|discriminate|tauto].
  - case_bool_decide; split; intros; [discriminate|tauto|assumption|reflexivity].
  - split.
    + intros ->. split; reflexivity.
    + intros [_ Hall]. apply list_eq. exact Hall.
  - intros error_rate i.
    destruct (simulation_run_spec error_rate i w) as (h' & Hrun).
    eexists _, _. split; [exact Hrun|].
    cbn [stdout]. apply elem_of_app. right. unfold run_output.
    rewrite !elem_of_cons. auto 20.
Qed.

(** ** Two runs from the same generator state *)

Lemma same_seed_counterexample :
  exists r1 r2 w1 w2,
    simulation_run 0 1 (start_world disagreeing_tape (fun _ => false)) = Ok r1 w1
    /\ simulation_run 0 1 (start_world disagreeing_tape (fun _ => true)) = Ok r2 w2
    /\ bob_results r1 <> bob_results r2.
Proof.
  eexists _, _, _, _.
  split; [vm_compute; reflexivity|]. split; [vm_compute; reflexivity|].
  cbn [bob_results]. discriminate.
Qed.

(** C6, for the two random sources the program has. Two runs with the same
    [error_rate] that start from the same state of numpy's generator (the
    same tape at the same position) both complete; they draw, in this
    order, the same sender bits, sender bases, channel flips and receiver
    bases, they sift the same sender key and the same receiver key, and the
    receiver measures the same value in every slot where the bases agree.
    The measurements in the other slots are the simulator's own samples:
    the runs agree on them, and then on everything, when the simulator
    hands both runs the same samples. *)
Theorem same_generator_state_same_keys (error_rate : Q) (i : nat)
    (w1 w2 : World) :
  np_tape w1 = np_tape w2 ->
  np_pos w1 = np_pos w2 ->
  exists r1 r2 w1' w2',
    simulation_run error_rate i w1 = Ok r1 w1'
    /\ simulation_run error_rate i w2 = Ok r2 w2'
    /\ alice_bits r1 = drawn_bits (np_tape w1) (np_pos w1) NUM_QUBITS
    /\ alice_basis r1
       = drawn_bits (np_tape w1) (np_pos w1 + NUM_QUBITS) NUM_QUBITS
    /\ bob_basis r1
       = drawn_bits (np_tape w1)
           (np_pos w1 + NUM_QUBITS + NUM_QUBITS + NUM_QUBITS) NUM_QUBITS
    /\ alice_bits r1 = alice_bits r2
    /\ alice_basis r1 = alice_basis r2
    /\ bob_basis r1 = bob_basis r2
    /\ alice_key r1 = alice_key r2
    /\ bob_key r1 = bob_key r2
    /\ (forall q, (q < NUM_QUBITS)%nat ->
        alice_basis r1 !!! q = bob_basis r1 !!! q ->
        bob_results r1 !!! q = bob_results r2 !!! q)
    /\ (aer_tape w1 = aer_tape w2 -> aer_pos w1 = aer_pos w2 -> r1 = r2).
Proof.
  intros Htape Hpos.
  destruct (simulation_run_spec error_rate i w1) as (h1 & Hrun1).
  destruct (simulation_run_spec error_rate i w2) as (h2 & Hrun2).
  eexists _, _, _, _. split; [exact Hrun1|]. split; [exact Hrun2|].
  assert (Hbits : run_alice_bits w1 = run_alice_bits w2)
    by (unfold run_alice_bits; rewrite Htape, Hpos; reflexivity).
  assert (Ha : run_alice_basis w1 = run_alice_basis w2)
    by (unfold run_alice_basis; rewrite Htape, Hpos; reflexivity).
  assert (Hb : run_bob_basis w1 = run_bob_basis w2)
    by (unfold run_bob_basis; rewrite Htape, Hpos; reflexivity).
  assert (Hf : run_flips w1 error_rate = run_flips w2 error_rate)
    by (unfold run_flips; rewrite Htape, Hpos; reflexivity).
  assert (Hsame : forall q, (q < NUM_QUBITS)%nat ->
            run_alice_basis w1 !!! q = run_bob_basis w1 !!! q ->
            bob_results (run_result error_rate w1) !!! q
            = bob_results (run_result error_rate w2) !!! q).
  { intros q Hq Hagree. unfold run_result. cbn [bob_results].
    rewrite <- Hbits, <- Ha, <- Hb, <- Hf.
    rewrite !measured_matching;
      try reflexivity; try assumption; apply drawn_bits_is_bit, Hq. }
  split; [reflexivity|]. split; [reflexivity|]. split; [reflexivity|].
  split; [exact Hbits|]. split; [exact Ha|]. split; [exact Hb|].
  split; [|split; [|split]].
  - unfold run_result. cbn [alice_key]. rewrite Hbits, Ha, Hb. reflexivity.
  - unfold run_result at 1 2. cbn [bob_key]. rewrite <- Ha, <- Hb.
    apply Forall_fmap_ext, Forall_forall. intros q Hq.
    apply agreeing_lt in Hq as [Hq Hagree].
    specialize (Hsame q Hq Hagree). unfold run_result in Hsame.
    cbn [bob_results] in Hsame. rewrite <- Ha, <- Hb in Hsame. exact Hsame.
  - exact Hsame.
  - intros Haer Hapos. unfold run_result.
    rewrite Hbits, Ha, Hb, Hf, Haer, Hapos. reflexivity.
Qed.

Lemma same_generator_state_same_keys_witness :
  exists r1 r2 w1' w2',
    simulation_run (1 # 5) 1 (start_world disagreeing_tape (fun _ => false))
    = Ok r1 w1'
    /\ simulation_run (1 # 5) 1
         (mkWorld [[XGate]] disagreeing_tape 0 (fun _ => false) 0 [Separator])
       = Ok r2 w2'
    /\ alice_bits r1 = drawn_bits disagreeing_tape 0 NUM_QUBITS
    /\ alice_basis r1 = drawn_bits disagreeing_tape (0 + NUM_QUBITS) NUM_QUBITS
    /\ bob_basis r1
       = drawn_bits disagreeing_tape
           (0 + NUM_QUBITS + NUM_QUBITS + NUM_QUBITS) NUM_QUBITS
    /\ alice_bits r1 = alice_bits r2
    /\ alice_basis r1 = alice_basis r2
    /\ bob_basis r1 = bob_basis r2
    /\ alice_key r1 = alice_key r2
    /\ bob_key r1 = bob_key r2
    /\ (forall q, (q < NUM_QUBITS)%nat ->
        alice_basis r1 !!! q = bob_basis r1 !!! q ->
        bob_results r1 !!! q = bob_results r2 !!! q)
    /\ ((fun _ : nat => false) = (fun _ : nat => false) -> 0%nat = 0%nat ->
        r1 = r2).
Proof.
  apply (same_generator_state_same_keys (1 # 5) 1
           (start_world disagreeing_tape (fun _ => false))
           (mkWorld [[XGate]] disagreeing_tape 0 (fun _ => false) 0 [Separator]));
    reflexivity.
Defined.

(** ** The eavesdropper *)

Lemma eve_slot (message : list loc) (eavesdropper_basis alice_basis : list Z)
    (error_rate : Q) (results : list Z) i l a e circ w :
  message !! i = Some l ->
  alice_basis !! i = Some a ->
  eavesdropper_basis !! i = Some e ->
  heap w !! l = Some circ ->
  MeasureOp ∉ circ ->
  let m := outcome_of (aer_tape w (aer_pos w)) (prepare circ Ket0) e in
  let flipped := Qltb (raw_uniform (np_tape w (np_pos w))) error_rate in
  (original <- index message i ;;
   qc <- deepcopy original ;;
   print (EveAnalysis (i + 1)) ;;;
   a <- index alice_basis i ;;
   print (EveSeesAliceBasis (a =? 1)) ;;;
   e <- index eavesdropper_basis i ;;
   print (EveMeasurementBasis (e =? 1)) ;;;
   e <- index eavesdropper_basis i ;;
   (if e =? 1 then append_instruction HGate qc ;;; print EveHadamard
    else ret tt) ;;;
   append_instruction MeasureOp qc ;;;
   eve_measurement <- backend_run qc ;;
   print (EveResult eve_measurement) ;;;
   qc_reencode <- new_circuit ;;
   e <- index eavesdropper_basis i ;;
   (if e =? 1 then
      (if eve_measurement =? 1 then append_instruction XGate qc_reencode
       else ret tt) ;;;
      append_instruction HGate qc_reencode ;;;
      print (EveReencode true)
    else
      (if eve_measurement =? 1 then append_instruction XGate qc_reencode
       else ret tt) ;;;
      print (EveReencode false)) ;;;
   r <- np_random_random ;;
   (if Qltb r error_rate then
      append_instruction XGate qc_reencode ;;; print EveBitFlip
    else ret tt) ;;;
   ret (<[i := qc_reencode]> message, results ++ [eve_measurement])) w
  = Ok (<[i := S (length (heap w))]> message, results ++ [m])
       (mkWorld
          (heap w
           ++ [(circ ++ (if e =? 1 then [HGate] else [])) ++ [MeasureOp];
               reencode_gates m e ++ (if flipped then [XGate] else [])])
          (np_tape w) (S (np_pos w)) (aer_tape w) (S (aer_pos w))
          (stdout w ++ eve_output i a e m flipped)).
Proof.
  intros Hl Ha He Hcirc Hno m flipped.
  pose proof (execute_in_basis circ e (aer_tape w) (aer_pos w) Hno) as Hexec.
  fold m in Hexec.
  unfold bind, index, deepcopy, print. rewrite Hl, Ha, He. unfold ret at 1 2 3 4.
  wsimpl. rewrite (list_lookup_total_correct _ _ _ Hcirc).
  unfold reencode_gates, eve_output.
  destruct (e =? 1) eqn:Ee.
  - unfold append_instruction, backend_run, print. wsimpl.
    rewrite !alter_fresh.
    rewrite (list_lookup_total_middle (heap w) [] _ (length (heap w)) eq_refl).
    rewrite Hexec. unfold new_circuit, np_random_random, next_raw, bind, ret.
    wsimpl. subst flipped. rewrite Ee.
    destruct (m =? 1); wsimpl; rewrite ?alter_fresh;
      destruct (Qltb (raw_uniform (np_tape w (np_pos w))) error_rate);
      wsimpl; rewrite ?alter_fresh; rewrite ?length_app; simpl;
      rewrite ?Nat.add_1_r, <- ?app_assoc, ?app_nil_r; reflexivity.
  - unfold append_instruction, backend_run, print, ret at 1. wsimpl.
    rewrite !alter_fresh.
    rewrite (list_lookup_total_middle (heap w) [] _ (length (heap w)) eq_refl).
    rewrite app_nil_r in Hexec.
    rewrite Hexec. unfold new_circuit, np_random_random, next_raw, bind, ret.
    wsimpl. subst flipped. rewrite Ee.
    destruct (m =? 1); wsimpl; rewrite ?alter_fresh;
      destruct (Qltb (raw_uniform (np_tape w (np_pos w))) error_rate);
      wsimpl; rewrite ?alter_fresh; rewrite ?length_app; simpl;
      rewrite ?Nat.add_1_r, <- ?app_assoc, ?app_nil_r; reflexivity.
Qed.

Lemma eve_loop (message : list loc) (eavesdropper_basis alice_basis : list Z)
    (error_rate : Q) w :
  (length message <= length eavesdropper_basis)%nat ->
  (length message <= length alice_basis)%nat ->
  (forall q l, message !! q = Some l ->
     exists circ, heap w !! l = Some circ /\ MeasureOp ∉ circ) ->
  exists h' out,
    simulate_eavesdropping_detailed message eavesdropper_basis alice_basis
      error_rate w
    = Ok ((fun q => (length (heap w) + 2 * q + 1)%nat) <$> seq 0 (length message),
          eve_result message eavesdropper_basis w <$> seq 0 (length message))
         (mkWorld (heap w ++ h') (np_tape w) (np_pos w + length message)
            (aer_tape w) (aer_pos w + length message) (stdout w ++ out))
    /\ length h' = (2 * length message)%nat
    /\ (forall q, (q < length message)%nat ->
        h' !! (2 * q + 1)%nat
        = Some (eve_forwarded message eavesdropper_basis error_rate w q)).
Proof.
  intros Heb Hab Hprep. unfold simulate_eavesdropping_detailed, range.
  match goal with |- context [for_each ?b ?xs ?a ?w] =>
    destruct (for_each_invariant b
      (fun done (acc : list nat * list Z) w' =>
         acc = (((fun q => (length (heap w) + 2 * q + 1)%nat) <$> done)
                  ++ drop (length done) message,
                eve_result message eavesdropper_basis w <$> done)
         /\ exists h' out,
           w' = mkWorld (heap w ++ h') (np_tape w) (np_pos w + length done)
                  (aer_tape w) (aer_pos w + length done) (stdout w ++ out)
           /\ length h' = (2 * length done)%nat
           /\ (forall q, (q < length done)%nat ->
               h' !! (2 * q + 1)%nat
               = Some (eve_forwarded message eavesdropper_basis error_rate w q)))
      xs a w)
      as (acc' & w' & Heq & Hacc & h' & out & Hw & Hlen & Hfwd)
  end.
  - split; [reflexivity|]. exists [], []. split; [|split].
    + destruct w. simpl. rewrite !app_nil_r. f_equal; lia.
    + reflexivity.
    + intros q Hq. inversion Hq.
  - intros done x rest [msg res] w1 Hsplit (Hacc & h1 & out1 & -> & Hlen & Hfwd).
    injection Hacc as -> ->.
    apply seq_split in Hsplit as (Hdone & -> & Hlt & _). simpl in Hlt |- *.
    set (k := length done) in *.
    assert (Hk : message !! k = Some (message !!! k))
      by (apply list_lookup_lookup_total_lt; exact Hlt).
    assert (Ha : alice_basis !! k = Some (alice_basis !!! k))
      by (apply list_lookup_lookup_total_lt; lia).
    assert (He : eavesdropper_basis !! k = Some (eavesdropper_basis !!! k))
      by (apply list_lookup_lookup_total_lt; lia).
    destruct (Hprep k _ Hk) as (circ & Hcirc & Hno).
    assert (Hmsg : (((fun q => (length (heap w) + 2 * q + 1)%nat) <$> done)
                      ++ drop k message) !! k = Some (message !!! k)).
    { rewrite lookup_app_r by (rewrite length_fmap; fold k; lia).
      rewrite length_fmap. fold k. rewrite Nat.sub_diag, lookup_drop, Nat.add_0_r.
      exact Hk. }
    eexists _, _. split.
    + apply (eve_slot _ eavesdropper_basis alice_basis error_rate _ k _ _ _ circ
               _ Hmsg Ha He); [|exact Hno].
      cbn [heap]. apply lookup_app_l_Some. exact Hcirc.
    + cbn [heap np_tape np_pos aer_tape aer_pos stdout]. split.
      * f_equal.
        -- rewrite insert_app_r_alt by (rewrite length_fmap; fold k; lia).
           rewrite length_fmap. fold k. rewrite Nat.sub_diag.
           rewrite (drop_S _ _ _ Hk). simpl.
           rewrite length_app. simpl. fold k.
           rewrite fmap_app, <- app_assoc. simpl.
           rewrite length_app, Hlen. fold k.
           do 3 f_equal; simpl; lia.
        -- rewrite fmap_app. simpl. unfold eve_result.
           rewrite (list_lookup_total_correct _ _ _ Hcirc). reflexivity.
      * eexists (h1 ++ [_; _]), (out1 ++ _). split; [|split].
        -- rewrite length_app. simpl. fold k.
           rewrite <- !app_assoc. f_equal; lia.
        -- rewrite !length_app, Hlen. simpl. fold k. lia.
        -- intros q Hq. rewrite length_app in Hq. simpl in Hq. fold k in Hq.
           destruct (decide (q < k)%nat) as [Hqk|Hqk].
           ++ rewrite lookup_app_l by lia. apply Hfwd. exact Hqk.
           ++ assert (q = k) as -> by lia.
              rewrite lookup_app_r by lia.
              match goal with |- [_; _] !! ?n = _ =>
                replace n with 1%nat by lia end.
              simpl. unfold eve_forwarded, eve_result, noise_gates.
              rewrite (list_lookup_total_correct _ _ _ Hcirc). reflexivity.
  - exists h', out. rewrite length_seq in Hacc, Hw, Hlen, Hfwd.
    rewrite Heq, Hacc, Hw, drop_all, app_nil_r.
    split; [reflexivity|]. split; assumption.
Qed.

Lemma unmeasured_spec (message : list loc) w :
  forallb (unmeasured w) message = true ->
  forall q l, message !! q = Some l ->
    exists circ, heap w !! l = Some circ /\ MeasureOp ∉ circ.
Proof.
  intros Hall q l Hl. rewrite forallb_forall in Hall.
  assert (Hin : In l message)
    by (apply list_elem_of_In; eapply list_elem_of_lookup_2; exact Hl).
  specialize (Hall l Hin). unfold unmeasured in Hall.
  destruct (heap w !! l) as [circ|]; [|discriminate].
  exists circ. split; [reflexivity|].
  rewrite forallb_forall in Hall. intros Hm.
  apply list_elem_of_In in Hm. specialize (Hall _ Hm). discriminate.
Qed.

Lemma outcome_is_bit sample k c : is_bit (outcome_of sample k c).
Proof.
  unfold outcome_of, is_bit.
  destruct (c =? 1), k, sample; simpl; auto.
Qed.

Lemma forwarded_value m e (flipped sample : bool) :
  is_bit m ->
  value_in e (reencode_gates m e ++ (if flipped then [XGate] else [])) sample
  = if flipped && negb (e =? 1) then 1 - m else m.
Proof.
  intros Hm. unfold value_in, reencode_gates, outcome_of.
  destruct (e =? 1); destruct Hm as [-> | ->]; destruct flipped, sample;
    reflexivity.
Qed.

Lemma reencode_prepares m e k :
  is_bit m -> is_bit e ->
  prepare (reencode_gates m e) k = prepare (encode_gates m e) k.
Proof. intros [-> | ->] [-> | ->]; reflexivity. Qed.

Lemma eavesdropper_counterexample :
  exists forwarded w',
    simulate_eavesdropping_detailed [0%nat] [1] [0] 1
      (mkWorld [[BarrierOp]] (fun _ => 0%N) 0 (fun _ => false) 0 [])
    = Ok ([forwarded], [0]) w'
    /\ EveBitFlip ∈ stdout w'
    /\ value_in 1 (heap w' !!! forwarded) false = 0
    /\ value_in 1 (heap w' !!! forwarded) true = 0.
Proof.
  eexists _, _. split; [vm_compute; reflexivity|].
  cbn [stdout heap]. split; [|split; reflexivity].
  rewrite !elem_of_cons. auto 20.
Qed.

(** C4, with the flip as the code applies it. For every slot [i] of a
    message of circuits that exist and are not measured yet, with bases for
    every slot, [simulate_eavesdropping_detailed] completes and:
    - it changes no circuit that existed before the call (the circuit it
      measures is a deep copy);
    - [results[i]] is the outcome of measuring the copy of [message[i]] in
      [eavesdropper_basis[i]], a bit;
    - slot [i] of the returned message is a new circuit, prepared from
      [results[i]] in [eavesdropper_basis[i]] with the gates of the encoder
      (without its barrier; the same state), followed by an X gate when
      the slot's own uniform draw is below [error_rate];
    - that X gate flips the value the forwarded circuit holds in Eve's
      basis when her basis is rectilinear ([eavesdropper_basis[i] != 1]) and
      leaves it as it is when her basis is diagonal. *)
Theorem eavesdropper_intercepts (message : list loc)
    (eavesdropper_basis alice_basis : list Z) (error_rate : Q) (w : World) :
  (length message <= length eavesdropper_basis)%nat ->
  (length message <= length alice_basis)%nat ->
  forallb (unmeasured w) message = true ->
  exists new_message results w',
    simulate_eavesdropping_detailed message eavesdropper_basis alice_basis
      error_rate w
    = Ok (new_message, results) w'
    /\ length new_message = length message
    /\ length results = length message
    /\ (forall l, (l < length (heap w))%nat -> heap w' !! l = heap w !! l)
    /\ (forall i, (i < length message)%nat ->
        let m := results !!! i in
        let e := eavesdropper_basis !!! i in
        let flipped := flipped_at (np_tape w) (np_pos w) error_rate i in
        m = outcome_of (aer_tape w (aer_pos w + i))
              (prepare (heap w !!! (message !!! i)) Ket0) e
        /\ is_bit m
        /\ (length (heap w) <= new_message !!! i)%nat
        /\ heap w' !! (new_message !!! i)
           = Some (reencode_gates m e ++ (if flipped then [XGate] else []))
        /\ (is_bit e ->
            prepare (reencode_gates m e) Ket0 = prepare (encode_gates m e) Ket0)
        /\ (forall sample,
            value_in e (reencode_gates m e ++ (if flipped then [XGate] else []))
              sample
            = if flipped && negb (e =? 1) then 1 - m else m)).
Proof.
  intros Heb Hab Hprep.
  destruct (eve_loop message eavesdropper_basis alice_basis error_rate w Heb Hab
              (unmeasured_spec message w Hprep))
    as (h' & out & Hrun & Hlen & Hfwd).
  eexists _, _, _. split; [exact Hrun|].
  split; [rewrite length_fmap; apply length_seq|].
  split; [rewrite length_fmap; apply length_seq|].
  cbn [heap]. split.
  - intros l Hl. apply lookup_app_l. exact Hl.
  - intros i Hi.
    assert (Hm : (eve_result message eavesdropper_basis w <$> seq 0 (length message))
                   !!! i
                 = eve_result message eavesdropper_basis w i).
    { apply list_lookup_total_correct.
      rewrite list_lookup_fmap, lookup_seq_lt by exact Hi. reflexivity. }
    assert (Hloc : ((fun q => (length (heap w) + 2 * q + 1)%nat)
                      <$> seq 0 (length message)) !!! i
                   = (length (heap w) + 2 * i + 1)%nat).
    { apply list_lookup_total_correct.
      rewrite list_lookup_fmap, lookup_seq_lt by exact Hi. reflexivity. }
    cbv zeta. rewrite Hm, Hloc.
    assert (Hbit : is_bit (eve_result message eavesdropper_basis w i))
      by apply outcome_is_bit.
    split; [reflexivity|]. split; [exact Hbit|]. split; [lia|]. split; [|split].
    + rewrite lookup_app_r by lia.
      replace (length (heap w) + 2 * i + 1 - length (heap w))%nat
        with (2 * i + 1)%nat by lia.
      apply Hfwd. exact Hi.
    + intros He. apply reencode_prepares; assumption.
    + intros sample. apply forwarded_value. exact Hbit.
Qed.

Lemma eavesdropper_intercepts_witness :
  exists new_message results w',
    simulate_eavesdropping_detailed [0; 1]%nat [1; 0] [0; 1] (1 # 10)
      (mkWorld [[BarrierOp]; [HGate; BarrierOp]] (fun _ => 0%N) 0
         (fun _ => true) 0 [])
    = Ok (new_message, results) w'
    /\ length new_message = 2%nat
    /\ length results = 2%nat
    /\ (forall l, (l < 2)%nat ->
        heap w' !! l = [[BarrierOp]; [HGate; BarrierOp]] !! l)
    /\ (forall i, (i < 2)%nat ->
        let m := results !!! i in
        let e := [1; 0] !!! i in
        let flipped := flipped_at (fun _ => 0%N) 0 (1 # 10) i in
        m = outcome_of true
              (prepare ([[BarrierOp]; [HGate; BarrierOp]] !!! ([0; 1]%nat !!! i))
                 Ket0) e
        /\ is_bit m
        /\ (2 <= new_message !!! i)%nat
        /\ heap w' !! (new_message !!! i)
           = Some (reencode_gates m e ++ (if flipped then [XGate] else []))
        /\ (is_bit e ->
            prepare (reencode_gates m e) Ket0 = prepare (encode_gates m e) Ket0)
        /\ (forall sample,
            value_in e (reencode_gates m e ++ (if flipped then [XGate] else []))
              sample
            = if flipped && negb (e =? 1) then 1 - m else m)).
Proof.
  apply (eavesdropper_intercepts [0; 1]%nat [1; 0] [0; 1] (1 # 10)
           (mkWorld [[BarrierOp]; [HGate; BarrierOp]] (fun _ => 0%N) 0
              (fun _ => true) 0 [])).
  - simpl. lia.
  - simpl. lia.
  - reflexivity.
Defined.

(** * Further properties of the code *)

(** ** Drawing bits *)

(** X1. [generate_bits n] returns [n] values, each 0 or 1, read from the
    next [n] draws of numpy's generator in order; it advances the generator
    by [n] draws and changes nothing else. With [n = 0] it returns the empty
    array. *)
Theorem generate_bits_contract (n : nat) (w : World) :
  exists bits,
    generate_bits n w = Ok bits (set_np_pos (np_pos w + n) w)
    /\ length bits = n
    /\ all_bits bits = true
    /\ (forall k, (k < n)%nat ->
        bits !! k = Some (raw_bit (np_tape w (np_pos w + k)))).
Proof.
  exists (drawn_bits (np_tape w) (np_pos w) n).
  split; [apply generate_bits_spec|]. split; [apply drawn_bits_length|].
  split; [|intros k Hk; apply drawn_bits_lookup, Hk].
  unfold all_bits. apply forallb_forall. intros x Hx.
  apply list_elem_of_In, list_elem_of_lookup in Hx as [k Hk].
  assert (Hlt : (k < n)%nat).
  { apply lookup_lt_Some in Hk. rewrite drawn_bits_length in Hk. exact Hk. }
  pose proof (drawn_bits_is_bit (np_tape w) (np_pos w) n k Hlt) as Hbit.
  rewrite (list_lookup_total_correct _ _ _ Hk) in Hbit.
  unfold is_bitb. destruct Hbit as [-> | ->]; reflexivity.
Qed.

(** ** The encoded qubits *)

Lemma encode_gates_state b c :
  prepare (encode_gates b c) Ket0 = bb84_state b c.
Proof.
  unfold encode_gates, bb84_state.
  destruct (c =? 0); [destruct (b =? 1)|destruct (b =? 0)]; reflexivity.
Qed.

Lemma bb84_state_inj b c b' c' :
  is_bit b -> is_bit c -> is_bit b' -> is_bit c' ->
  bb84_state b c = bb84_state b' c' -> b = b' /\ c = c'.
Proof.
  intros [-> | ->] [-> | ->] [-> | ->] [-> | ->]; cbn; intros H;
    first [discriminate H | split; reflexivity].
Qed.

(** X2. For bits and bases of at least [NUM_QUBITS] elements,
    [encode_message] returns [NUM_QUBITS] new circuit objects at consecutive
    fresh addresses (no two slots share a circuit, and no circuit that
    existed before is touched). The circuit of slot [i] holds no measurement
    and prepares |0>, |1>, |+> or |-> as its bit and basis say; on bits and
    bases that are 0 or 1 the four states are distinct, so a slot's state
    determines its bit and its basis. *)
Theorem encode_message_prepares (bits basis : list Z) (w : World) :
  (NUM_QUBITS <= length bits)%nat ->
  (NUM_QUBITS <= length basis)%nat ->
  exists message w',
    encode_message bits basis w = Ok message w'
    /\ message = seq (length (heap w)) NUM_QUBITS
    /\ NoDup message
    /\ length (heap w') = (length (heap w) + NUM_QUBITS)%nat
    /\ (forall l, (l < length (heap w))%nat -> heap w' !! l = heap w !! l)
    /\ (forall i, (i < NUM_QUBITS)%nat ->
        exists circ,
          heap w' !! (message !!! i) = Some circ
          /\ (MeasureOp ∉ circ)
          /\ prepare circ Ket0 = bb84_state (bits !!! i) (basis !!! i))
    /\ (forall i j, (i < NUM_QUBITS)%nat -> (j < NUM_QUBITS)%nat ->
        is_bit (bits !!! i) -> is_bit (basis !!! i) ->
        is_bit (bits !!! j) -> is_bit (basis !!! j) ->
        prepare (heap w' !!! (message !!! i)) Ket0
        = prepare (heap w' !!! (message !!! j)) Ket0 ->
        bits !!! i = bits !!! j /\ basis !!! i = basis !!! j).
Proof.
  intros Hbits Hbasis.
  assert (Hslot : forall i, (i < NUM_QUBITS)%nat ->
            (heap w ++ encoded bits basis NUM_QUBITS)
              !! (seq (length (heap w)) NUM_QUBITS !!! i)
            = Some (encode_gates (bits !!! i) (basis !!! i))).
  { intros i Hi. rewrite lookup_total_seq_lt by exact Hi.
    rewrite lookup_app_r by lia.
    replace (length (heap w) + i - length (heap w))%nat with i by lia.
    unfold encoded. rewrite list_lookup_fmap, lookup_seq_lt by exact Hi.
    reflexivity. }
  eexists _, _. split; [apply encode_message_spec; assumption|].
  cbn [heap set_heap].
  split; [reflexivity|]. split; [apply NoDup_seq|].
  split; [rewrite length_app, encoded_length; reflexivity|].
  split; [intros l Hl; apply lookup_app_l; exact Hl|]. split.
  - intros i Hi. eexists. split; [apply Hslot, Hi|]. split.
    + pose proof (no_measure_encoded (bits !!! i) (basis !!! i) false) as Hno.
      rewrite app_nil_r in Hno. exact Hno.
    + apply encode_gates_state.
  - intros i j Hi Hj Hbi Hci Hbj Hcj Hsame.
    rewrite (list_lookup_total_correct _ _ _ (Hslot i Hi)) in Hsame.
    rewrite (list_lookup_total_correct _ _ _ (Hslot j Hj)) in Hsame.
    rewrite !encode_gates_state in Hsame.
    apply bb84_state_inj; assumption.
Qed.

Lemma encode_message_prepares_witness :
  exists message w',
    encode_message (repeat 1 32) (repeat 0 16 ++ repeat 1 16) channel_example_world
    = Ok message w'
    /\ message = seq 1 NUM_QUBITS
    /\ NoDup message
    /\ length (heap w') = (1 + NUM_QUBITS)%nat
    /\ (forall l, (l < 1)%nat -> heap w' !! l = heap channel_example_world !! l)
    /\ (forall i, (i < NUM_QUBITS)%nat ->
        exists circ,
          heap w' !! (message !!! i) = Some circ
          /\ (MeasureOp ∉ circ)
          /\ prepare circ Ket0
             = bb84_state (repeat 1 32 !!! i) ((repeat 0 16 ++ repeat 1 16) !!! i))
    /\ (forall i j, (i < NUM_QUBITS)%nat -> (j < NUM_QUBITS)%nat ->
        is_bit (repeat 1 32 !!! i) ->
        is_bit ((repeat 0 16 ++ repeat 1 16) !!! i) ->
        is_bit (repeat 1 32 !!! j) ->
        is_bit ((repeat 0 16 ++ repeat 1 16) !!! j) ->
        prepare (heap w' !!! (message !!! i)) Ket0
        = prepare (heap w' !!! (message !!! j)) Ket0 ->
        repeat 1 32 !!! i = repeat 1 32 !!! j
        /\ (repeat 0 16 ++ repeat 1 16) !!! i = (repeat 0 16 ++ repeat 1 16) !!! j).
Proof.
  apply (encode_message_prepares (repeat 1 32) (repeat 0 16 ++ repeat 1 16)
           channel_example_world); vm_compute; lia.
Defined.

(** ** What the receiver measures *)

Lemma mismatched_outcome sample b a c (flipped : bool) :
  is_bit a -> is_bit c -> a <> c ->
  outcome_of sample
    (prepare (encode_gates b a ++ (if flipped then [XGate] else [])) Ket0) c
  = sample_bit sample.
Proof.
  intros [-> | ->] [-> | ->] Hne; try congruence; unfold encode_gates; simpl;
    [destruct (b =? 1)|destruct (b =? 0)]; destruct flipped, sample; reflexivity.
Qed.

Lemma measured_lookup bits a_basis b_basis flips tape pos q :
  (q < NUM_QUBITS)%nat ->
  measured bits a_basis b_basis flips tape pos !!! q
  = outcome_of (tape (pos + q)%nat)
      (prepare (encode_gates (bits !!! q) (a_basis !!! q)
                ++ (if flips q then [XGate] else [])) Ket0)
      (b_basis !!! q).
Proof.
  intros Hq. unfold measured.
  erewrite list_lookup_total_correct;
    [|rewrite list_lookup_fmap, lookup_seq_lt by exact Hq; reflexivity].
  rewrite !Nat.add_0_l. reflexivity.
Qed.

(** X3. Encoding, the channel and the receiver's measurement, slot by slot.
    For bits and bases that hold 0 or 1, the receiver's result in a slot
    where its basis is the sender's is the sender's bit, flipped when the
    channel appended an X gate to a qubit in the rectilinear basis; in a
    slot where the bases differ it is the simulator's sample for that slot,
    whatever the bit and whatever the channel did. The three stages consume
    one numpy draw and one simulator sample per slot. *)
Theorem receiver_measurements (bits a_basis b_basis : list Z) (error_rate : Q)
    (w : World) :
  (NUM_QUBITS <= length bits)%nat ->
  (NUM_QUBITS <= length a_basis)%nat ->
  (NUM_QUBITS <= length b_basis)%nat ->
  all_bits (take NUM_QUBITS bits) = true ->
  all_bits (take NUM_QUBITS a_basis) = true ->
  all_bits (take NUM_QUBITS b_basis) = true ->
  exists results w',
    (message <- encode_message bits a_basis ;;
     message <- simulate_quantum_channel message error_rate ;;
     measure_message message b_basis) w
    = Ok results w'
    /\ length results = NUM_QUBITS
    /\ np_pos w' = (np_pos w + NUM_QUBITS)%nat
    /\ aer_pos w' = (aer_pos w + NUM_QUBITS)%nat
    /\ (forall q, (q < NUM_QUBITS)%nat ->
        results !!! q
        = if a_basis !!! q =? b_basis !!! q
          then received (bits !!! q) (a_basis !!! q)
                 (flipped_at (np_tape w) (np_pos w) error_rate q)
          else sample_bit (aer_tape w (aer_pos w + q))).
Proof.
  intros Hbits Ha Hb Hbit Hbas Hbob.
  rewrite <- bind_assoc.
  destruct (encode_then_channel bits a_basis error_rate w Hbits Ha)
    as (h1 & Henc & _ & Hh1).
  rewrite (bind_ok _ _ _ _ _ Henc).
  match goal with |- context [measure_message _ _ ?w2] =>
    destruct (measure_encoded bits a_basis b_basis
                (flipped_at (np_tape w) (np_pos w) error_rate)
                (length (heap w)) w2 Hb Hh1)
      as (h2 & Hmeas & _)
  end.
  eexists _, _. split; [exact Hmeas|]. wsimpl.
  split; [apply measured_length|]. split; [reflexivity|]. split; [reflexivity|].
  intros q Hq. rewrite measured_lookup by exact Hq.
  destruct (Z.eqb_spec (a_basis !!! q) (b_basis !!! q)) as [Hsame|Hdiff].
  - rewrite <- Hsame. apply matching_outcome; eapply all_bits_take; eassumption.
  - apply mismatched_outcome;
      [eapply all_bits_take; eassumption..|exact Hdiff].
Qed.

Lemma receiver_measurements_witness :
  exists results w',
    (message <- encode_message (repeat 1 32) (repeat 0 32) ;;
     message <- simulate_quantum_channel message (1 # 2) ;;
     measure_message message (repeat 0 16 ++ repeat 1 16))
      channel_example_world
    = Ok results w'
    /\ length results = NUM_QUBITS
    /\ np_pos w' = (0 + NUM_QUBITS)%nat
    /\ aer_pos w' = (0 + NUM_QUBITS)%nat
    /\ (forall q, (q < NUM_QUBITS)%nat ->
        results !!! q
        = if repeat 0 32 !!! q =? (repeat 0 16 ++ repeat 1 16) !!! q
          then received (repeat 1 32 !!! q) (repeat 0 32 !!! q)
                 (flipped_at (fun _ => 0%N) 0 (1 # 2) q)
          else sample_bit false).
Proof.
  apply (receiver_measurements (repeat 1 32) (repeat 0 32)
           (repeat 0 16 ++ repeat 1 16) (1 # 2) channel_example_world);
    first [reflexivity | vm_compute; lia].
Defined.

(** ** The keys of a run *)

Lemma run_bob_key error_rate w :
  bob_key (run_result error_rate w)
  = (fun q => received (run_alice_bits w !!! q) (run_alice_basis w !!! q)
                (run_flips w error_rate q))
      <$> agreeing (run_alice_basis w) (run_bob_basis w) NUM_QUBITS.
Proof.
  unfold run_result. cbn [bob_key]. apply Forall_fmap_ext, Forall_forall.
  intros q Hq. apply agreeing_lt in Hq as [Hq Hsame].
  apply measured_matching; [exact Hq|apply drawn_bits_is_bit, Hq..|exact Hsame].
Qed.

Lemma received_same b c (flipped : bool) :
  received b c flipped = b <-> (c = 0 -> flipped = false).
Proof.
  unfold received. destruct flipped, (Z.eqb_spec c 0); simpl; split; intros H;
    try reflexivity; try lia; try (intros; congruence).
Qed.

(** X4. When a run prints that the keys are the same. For every error
    rate, a run completes, prints its twelve lines, and its two keys are
    equal (the verdict line is "the same") exactly when the channel flipped
    no qubit that is in the rectilinear basis in a slot where the receiver's
    basis is the sender's: flips of qubits in the diagonal basis and flips in
    slots that are sifted out never show. *)
Theorem run_keys_same_iff (error_rate : Q) (i : nat) (w : World) :
  exists r w',
    simulation_run error_rate i w = Ok r w'
    /\ stdout w' = stdout w ++ run_output i r
    /\ (bob_key r = alice_key r <->
        forall q, (q < NUM_QUBITS)%nat ->
          alice_basis r !!! q = bob_basis r !!! q ->
          alice_basis r !!! q = 0 ->
          run_flips w error_rate q = false)
    /\ (verdict (alice_key r) (bob_key r) = KeysSame <-> bob_key r = alice_key r).
Proof.
  destruct (simulation_run_spec error_rate i w) as (h' & Hrun).
  eexists _, _. split; [exact Hrun|]. split; [reflexivity|]. split.
  - rewrite run_bob_key. unfold run_result. cbn [alice_key alice_basis bob_basis].
    rewrite <- Forall_fmap_ext, Forall_forall. split.
    + intros Hall q Hq Hsame.
      apply (proj1 (received_same (run_alice_bits w !!! q) _ _)). apply Hall.
      unfold agreeing. rewrite list_elem_of_filter, elem_of_seq.
      split; [exact Hsame|lia].
    + intros Hall q Hq. apply agreeing_lt in Hq as [Hq Hsame].
      apply (proj2 (received_same _ _ _)). apply Hall; assumption.
  - unfold verdict. case_bool_decide; split; intros H'; congruence.
Qed.

(** X5. The shape of a run's results, for every error rate: the sender's
    bits, the two basis sequences and the receiver's measurements have
    [NUM_QUBITS] elements, each 0 or 1; the two keys are the specification's
    sifts of the bits and of the measurements by the same bases, so they
    always have the same length, the number of agreeing slots, which is at
    most [NUM_QUBITS]. *)
Theorem run_result_shape (error_rate : Q) (i : nat) (w : World) :
  exists r w',
    simulation_run error_rate i w = Ok r w'
    /\ length (alice_bits r) = NUM_QUBITS
    /\ length (alice_basis r) = NUM_QUBITS
    /\ length (bob_basis r) = NUM_QUBITS
    /\ length (bob_results r) = NUM_QUBITS
    /\ all_bits (alice_bits r) = true
    /\ all_bits (alice_basis r) = true
    /\ all_bits (bob_basis r) = true
    /\ all_bits (bob_results r) = true
    /\ alice_key r = sift_spec (alice_basis r) (bob_basis r) (alice_bits r)
    /\ bob_key r = sift_spec (alice_basis r) (bob_basis r) (bob_results r)
    /\ length (alice_key r) = length (bob_key r)
    /\ length (alice_key r)
       = agreement_count_spec (alice_basis r) (bob_basis r)
    /\ (length (alice_key r) <= NUM_QUBITS)%nat.
Proof.
  destruct (simulation_run_spec error_rate i w) as (h' & Hrun).
  assert (Hdrawn : forall tape pos, all_bits (drawn_bits tape pos NUM_QUBITS) = true).
  { intros tape pos. unfold all_bits. apply forallb_forall. intros x Hx.
    apply list_elem_of_In, list_elem_of_lookup in Hx as [k Hk].
    assert (Hlt : (k < NUM_QUBITS)%nat).
    { apply lookup_lt_Some in Hk. rewrite drawn_bits_length in Hk. exact Hk. }
    pose proof (drawn_bits_is_bit tape pos NUM_QUBITS k Hlt) as Hbit.
    rewrite (list_lookup_total_correct _ _ _ Hk) in Hbit.
    unfold is_bitb. destruct Hbit as [-> | ->]; reflexivity. }
  eexists _, _. split; [exact Hrun|].
  unfold run_result.
  cbn [alice_bits alice_basis bob_basis bob_results alice_key bob_key].
  set (bits := run_alice_bits w). set (a := run_alice_basis w).
  set (b := run_bob_basis w).
  set (results := measured bits a b (run_flips w error_rate) (aer_tape w)
                    (aer_pos w)).
  assert (Hbits : length bits = NUM_QUBITS) by apply drawn_bits_length.
  assert (Ha : length a = NUM_QUBITS) by apply drawn_bits_length.
  assert (Hb : length b = NUM_QUBITS) by apply drawn_bits_length.
  assert (Hr : length results = NUM_QUBITS) by apply measured_length.
  assert (Hka : (bits !!!.) <$> agreeing a b NUM_QUBITS = sift_spec a b bits).
  { rewrite agreeing_sift by lia. rewrite !take_ge by lia. reflexivity. }
  assert (Hkb : (results !!!.) <$> agreeing a b NUM_QUBITS = sift_spec a b results).
  { rewrite agreeing_sift by lia. rewrite !take_ge by lia. reflexivity. }
  assert (Hcount : length (agreeing a b NUM_QUBITS) = agreement_count_spec a b).
  { rewrite agreeing_count by lia. rewrite !take_ge by lia. reflexivity. }
  repeat (split; [first [assumption | apply Hdrawn]|]).
  split.
  - unfold all_bits. apply forallb_forall. intros x Hx.
    apply list_elem_of_In in Hx. unfold results, measured in Hx.
    apply list_elem_of_fmap in Hx as (q & -> & _).
    pose proof (outcome_is_bit (aer_tape w (aer_pos w + q))
                  (prepare (encode_gates (bits !!! q) (a !!! q)
                            ++ (if run_flips w error_rate q then [XGate] else []))
                     Ket0) (b !!! q)) as Hbit.
    unfold is_bitb. destruct Hbit as [-> | ->]; reflexivity.
  - split; [exact Hka|]. split; [exact Hkb|].
    rewrite !length_fmap. split; [reflexivity|]. split; [exact Hcount|].
    unfold agreeing. etransitivity; [apply length_filter|].
    rewrite length_seq. reflexivity.
Qed.

(** X6. A channel that always flips. When [error_rate] is at least 1, the
    receiver's key of a run is the sender's key with the bit of every slot
    in the rectilinear basis inverted and the bit of every slot in the
    diagonal basis intact: the X gate of the channel does not change what a
    measurement in the diagonal basis returns. *)
Theorem saturated_channel_keys (error_rate : Q) (i : nat) (w : World) :
  (1 <= error_rate)%Q ->
  exists r w',
    simulation_run error_rate i w = Ok r w'
    /\ alice_key r
       = (alice_bits r !!!.)
           <$> agreeing (alice_basis r) (bob_basis r) NUM_QUBITS
    /\ bob_key r
       = (fun q => if alice_basis r !!! q =? 0 then 1 - alice_bits r !!! q
                   else alice_bits r !!! q)
           <$> agreeing (alice_basis r) (bob_basis r) NUM_QUBITS.
Proof.
  intros He. destruct (simulation_run_spec error_rate i w) as (h' & Hrun).
  eexists _, _. split; [exact Hrun|]. split; [reflexivity|].
  rewrite run_bob_key. unfold run_result. cbn [alice_bits alice_basis bob_basis].
  apply Forall_fmap_ext, Forall_forall. intros q _.
  unfold received, run_flips, flipped_at.
  rewrite always_flips by exact He. reflexivity.
Qed.

Lemma saturated_channel_keys_witness :
  exists r w',
    simulation_run 1 1 (start_world (fun _ => 0%N) (fun _ => false)) = Ok r w'
    /\ alice_key r
       = (alice_bits r !!!.)
           <$> agreeing (alice_basis r) (bob_basis r) NUM_QUBITS
    /\ bob_key r
       = (fun q => if alice_basis r !!! q =? 0 then 1 - alice_bits r !!! q
                   else alice_bits r !!! q)
           <$> agreeing (alice_basis r) (bob_basis r) NUM_QUBITS.
Proof.
  apply (saturated_channel_keys 1 1 (start_world (fun _ => 0%N) (fun _ => false))).
  discriminate.
Defined.

(** ** The runs of [quantum_communication] *)

Lemma run_result_ext error_rate w w' :
  np_tape w = np_tape w' -> np_pos w = np_pos w' ->
  aer_tape w = aer_tape w' -> aer_pos w = aer_pos w' ->
  run_result error_rate w = run_result error_rate w'.
Proof.
  unfold run_result, run_alice_bits, run_alice_basis, run_bob_basis, run_flips.
  intros -> -> -> ->. reflexivity.
Qed.

Lemma runs_output error_rate n first w :
  exists h',
    for_each (fun _ i => _r <- simulation_run error_rate i ;; ret tt)
      (seq first n) tt w
    = Ok tt
        (mkWorld h' (np_tape w) (np_pos w + n * (4 * NUM_QUBITS)) (aer_tape w)
           (aer_pos w + n * NUM_QUBITS)
           (stdout w
            ++ concat ((fun j => run_output (first + j)
                                   (run_result error_rate (nth_run_start w j)))
                         <$> seq 0 n))).
Proof.
  revert first w. induction n as [|n IH]; intros first w.
  - exists (heap w). destruct w. simpl. unfold ret. rewrite app_nil_r.
    f_equal. f_equal; lia.
  - destruct (simulation_run_spec error_rate first w) as (h1 & Hrun).
    cbn [seq for_each]. unfold bind at 1 2. rewrite Hrun. unfold ret at 1.
    match goal with |- context [for_each _ _ tt ?w1] =>
      destruct (IH (S first) w1) as (h' & Hrest)
    end.
    exists h'. rewrite Hrest. cbn [np_tape np_pos aer_tape aer_pos stdout].
    f_equal. f_equal; [lia|lia|].
    rewrite <- app_assoc. f_equal.
    cbn [fmap list_fmap concat]. f_equal.
    + rewrite Nat.add_0_r. f_equal.
      apply run_result_ext; unfold nth_run_start; wsimpl;
        first [reflexivity | lia].
    + f_equal. rewrite <- fmap_S_seq, <- list_fmap_compose.
      apply Forall_fmap_ext, Forall_forall. intros j _. unfold compose.
      replace (first + S j)%nat with (S first + j)%nat by lia. f_equal.
      apply run_result_ext; unfold nth_run_start; wsimpl;
        first [reflexivity | lia].
Qed.

Lemma runs_output_length error_rate w first (l : list nat) :
  length (concat ((fun j => run_output (first + j)
                              (run_result error_rate (nth_run_start w j)))
                    <$> l))
  = (12 * length l)%nat.
Proof.
  induction l as [|j l IHl]; [reflexivity|].
  cbn [fmap list_fmap concat]. rewrite length_app, IHl.
  cbn [length run_output]. lia.
Qed.

(** X7. [quantum_communication(error_rate, num_iterations)] completes for
    every error rate and every number of iterations. It performs the runs
    numbered 1 to [num_iterations] one after the other: run number [j + 1]
    reads the numpy draws [j * 4 * NUM_QUBITS] onwards and the simulator
    samples [j * NUM_QUBITS] onwards, independently of the circuits and of
    the output of the runs before it, and the output is the twelve lines of
    each run in order. With no iteration it draws and prints nothing. *)
Theorem quantum_communication_runs (error_rate : Q) (num_iterations : nat)
    (w : World) :
  (exists w',
     quantum_communication error_rate num_iterations w = Ok tt w'
     /\ np_tape w' = np_tape w
     /\ aer_tape w' = aer_tape w
     /\ np_pos w' = (np_pos w + num_iterations * (4 * NUM_QUBITS))%nat
     /\ aer_pos w' = (aer_pos w + num_iterations * NUM_QUBITS)%nat
     /\ stdout w'
        = stdout w
          ++ concat ((fun j => run_output (1 + j)
                                 (run_result error_rate (nth_run_start w j)))
                       <$> seq 0 num_iterations)
     /\ length (stdout w') = (length (stdout w) + 12 * num_iterations)%nat)
  /\ quantum_communication error_rate 0 w = Ok tt w.
Proof.
  split; [|reflexivity].
  unfold quantum_communication.
  destruct (runs_output error_rate num_iterations 1 w) as (h' & Hruns).
  eexists. split; [exact Hruns|].
  cbn [np_tape np_pos aer_tape aer_pos stdout].
  repeat (split; [reflexivity|]).
  rewrite length_app, runs_output_length, length_seq. reflexivity.
Qed.

(** ** When the eavesdropper completes *)

Section LoopsWithInvariant.
Context {A S : Type} (body : S -> A -> M S) (I : S -> Prop).

(** A loop that keeps [I] and raises at the first element it cannot
    process in a state that satisfies [I]. *)
Lemma for_each_raise_inv xs y ys e acc w :
  I acc ->
  (forall x acc1 w1, x ∈ xs -> I acc1 ->
     exists acc2 w2, body acc1 x w1 = Ok acc2 w2 /\ I acc2) ->
  (forall acc1 w1, I acc1 -> exists w2, body acc1 y w1 = Raise e w2) ->
  exists w', for_each body (xs ++ y :: ys) acc w = Raise e w'.
Proof.
  intros Hacc Hok Hbad. revert acc w Hacc.
  induction xs as [|x xs IH]; intros acc w Hacc; simpl.
  - destruct (Hbad acc w Hacc) as [w2 Hw2]. exists w2.
    rewrite (bind_raise _ _ _ _ _ Hw2). reflexivity.
  - destruct (Hok x acc w) as (acc2 & w2 & Hbody & Hacc2); [left|exact Hacc|].
    rewrite (bind_ok _ _ _ _ _ Hbody). apply IH; [|exact Hacc2].
    intros x' acc1 w1 Hin. apply Hok. right. exact Hin.
Qed.
End LoopsWithInvariant.

Lemma eve_slot_total (message : list loc) (eavesdropper_basis alice_basis : list Z)
    (error_rate : Q) (results : list Z) i w :
  (i < length message)%nat ->
  (i < length alice_basis)%nat ->
  (i < length eavesdropper_basis)%nat ->
  exists message' m w',
    (original <- index message i ;;
     qc <- deepcopy original ;;
     print (EveAnalysis (i + 1)) ;;;
     a <- index alice_basis i ;;
     print (EveSeesAliceBasis (a =? 1)) ;;;
     e <- index eavesdropper_basis i ;;
     print (EveMeasurementBasis (e =? 1)) ;;;
     e <- index eavesdropper_basis i ;;
     (if e =? 1 then append_instruction HGate qc ;;; print EveHadamard
      else ret tt) ;;;
     append_instruction MeasureOp qc ;;;
     eve_measurement <- backend_run qc ;;
     print (EveResult eve_measurement) ;;;
     qc_reencode <- new_circuit ;;
     e <- index eavesdropper_basis i ;;
     (if e =? 1 then
        (if eve_measurement =? 1 then append_instruction XGate qc_reencode
         else ret tt) ;;;
        append_instruction HGate qc_reencode ;;;
        print (EveReencode true)
      else
        (if eve_measurement =? 1 then append_instruction XGate qc_reencode
         else ret tt) ;;;
        print (EveReencode false)) ;;;
     r <- np_random_random ;;
     (if Qltb r error_rate then
        append_instruction XGate qc_reencode ;;; print EveBitFlip
      else ret tt) ;;;
     ret (<[i := qc_reencode]> message, results ++ [eve_measurement])) w
    = Ok (message', results ++ [m]) w'
    /\ length message' = length message.
Proof.
  intros Hm Ha He.
  destruct (lookup_lt_is_Some_2 message i Hm) as [l Hl].
  destruct (lookup_lt_is_Some_2 alice_basis i Ha) as [a Hla].
  destruct (lookup_lt_is_Some_2 eavesdropper_basis i He) as [e Hle].
  unfold bind, index, deepcopy, print. rewrite Hl, Hla, Hle.
  unfold ret at 1 2 3 4. wsimpl.
  destruct (e =? 1) eqn:Ee;
    unfold append_instruction, backend_run, print, ret at 1; wsimpl;
    match goal with |- context [execute ?qc ?t ?p ?k ?b] =>
      destruct (execute qc t p k b) as [m p']
    end;
    unfold new_circuit, np_random_random, next_raw, bind, ret; wsimpl;
    rewrite Ee; destruct (m =? 1); wsimpl;
    match goal with |- context [Qltb ?r ?e] => destruct (Qltb r e) end;
    eexists _, _, _; (split; [reflexivity|apply length_insert]).
Qed.

(** X8. When [simulate_eavesdropping_detailed] completes. On an empty
    message it returns an empty message and no result and leaves the world
    as it is. On any message, whatever the circuits are, it completes when
    Eve's bases and the sender's bases have an element for every slot, and
    then returns a message and a result list of the length of the message.
    It raises [IndexError] when either sequence is shorter than the message:
    the sender's bases are only printed, and a missing one stops the
    interception all the same. *)
Theorem eavesdropper_completes (message : list loc)
    (eavesdropper_basis alice_basis : list Z) (error_rate : Q) (w : World) :
  simulate_eavesdropping_detailed [] eavesdropper_basis alice_basis error_rate w
  = Ok ([], []) w
  /\ ((length message <= length eavesdropper_basis)%nat ->
      (length message <= length alice_basis)%nat ->
      exists message' results w',
        simulate_eavesdropping_detailed message eavesdropper_basis alice_basis
          error_rate w
        = Ok (message', results) w'
        /\ length message' = length message
        /\ length results = length message)
  /\ ((length eavesdropper_basis < length message)%nat
      \/ (length alice_basis < length message)%nat ->
      exists w',
        simulate_eavesdropping_detailed message eavesdropper_basis alice_basis
          error_rate w
        = Raise IndexError w').
Proof.
  split; [reflexivity|]. split.
  - intros He Ha. unfold simulate_eavesdropping_detailed, range.
    match goal with |- context [for_each ?b ?xs ?a ?w] =>
      destruct (for_each_invariant b
        (fun done (acc : list nat * list Z) (w' : World) =>
           length acc.1 = length message /\ length acc.2 = length done) xs a w)
        as ([msg' res] & w' & Heq & Hmsg & Hres)
    end.
    + split; reflexivity.
    + intros done x rest [msg res] w1 Hsplit [Hmsg Hres]. cbn [fst snd] in *.
      apply seq_split in Hsplit as (_ & -> & Hlt & _). simpl in Hlt |- *.
      destruct (eve_slot_total msg eavesdropper_basis alice_basis error_rate res
                  (length done) w1) as (msg2 & m & w2 & Hslot & Hlen); [lia..|].
      eexists _, _. split; [exact Hslot|]. cbn [fst snd].
      split; [lia|]. rewrite !length_app, Hres. reflexivity.
    + cbn [fst snd] in *. exists msg', res, w'.
      split; [exact Heq|]. split; [exact Hmsg|].
      rewrite Hres. apply length_seq.
  - intros Hshort. unfold simulate_eavesdropping_detailed, range.
    set (m := (length eavesdropper_basis `min` length alice_basis)%nat).
    rewrite (seq_middle m) by lia.
    apply (for_each_raise_inv _
             (fun acc : list nat * list Z => length acc.1 = length message)).
    + reflexivity.
    + intros q [msg res] w1 Hq Hmsg. cbn [fst] in Hmsg. apply elem_of_seq in Hq.
      destruct (eve_slot_total msg eavesdropper_basis alice_basis error_rate res
                  q w1) as (msg2 & r & w2 & Hslot & Hlen); [lia..|].
      eexists _, _. split; [exact Hslot|]. cbn [fst]. lia.
    + intros [msg res] w1 Hmsg. cbn [fst] in Hmsg.
      destruct (lookup_lt_is_Some_2 msg m ltac:(lia)) as [l Hl].
      unfold bind, index, deepcopy, print. rewrite Hl. unfold ret at 1. wsimpl.
      destruct (alice_basis !! m) as [a|] eqn:Ha.
      * assert (He : eavesdropper_basis !! m = None).
        { apply lookup_ge_None_2. apply lookup_lt_Some in Ha. lia. }
        unfold ret at 1. wsimpl. rewrite He. eexists. reflexivity.
      * eexists. reflexivity.
Qed.

Lemma eavesdropper_completes_witness :
  (exists message' results w',
      simulate_eavesdropping_detailed [0%nat] [1] [0] (1 # 10)
        channel_example_world
      = Ok (message', results) w'
      /\ length message' = 1%nat
      /\ length results = 1%nat)
  /\ (exists w',
        simulate_eavesdropping_detailed [0%nat] [1] [] (1 # 10)
          channel_example_world
        = Raise IndexError w').
Proof.
  destruct (eavesdropper_completes [0%nat] [1] [0] (1 # 10) channel_example_world)
    as (_ & Hok & _).
  destruct (eavesdropper_completes [0%nat] [1] [] (1 # 10) channel_example_world)
    as (_ & _ & Hraise).
  split.
  - apply Hok; simpl; lia.
  - apply Hraise. right. simpl. lia.
Defined.

(** ** The eavesdropper between the sender and the receiver *)

Lemma no_measure_forwarded m e (noise : list instruction) :
  MeasureOp ∉ noise -> MeasureOp ∉ reencode_gates m e ++ noise.
Proof.
  intros Hnoise. unfold reencode_gates.
  destruct (e =? 1), (m =? 1); simpl;
    rewrite ?not_elem_of_cons; repeat split; try discriminate; exact Hnoise.
Qed.

Lemma eve_measured_lookup bits a_basis e_basis tape pos q :
  (q < NUM_QUBITS)%nat ->
  eve_measured bits a_basis e_basis tape pos !!! q
  = outcome_of (tape (pos + q)%nat)
      (prepare (encode_gates (bits !!! q) (a_basis !!! q)) Ket0)
      (e_basis !!! q).
Proof.
  intros Hq. unfold eve_measured.
  erewrite list_lookup_total_correct;
    [|rewrite list_lookup_fmap, lookup_seq_lt by exact Hq; reflexivity].
  rewrite !Nat.add_0_l. reflexivity.
Qed.

Lemma measured_after_eve_lookup eve e_basis b_basis flips tape pos q :
  (q < NUM_QUBITS)%nat ->
  measured_after_eve eve e_basis b_basis flips tape pos !!! q
  = outcome_of (tape (pos + q)%nat)
      (prepare (reencode_gates (eve !!! q) (e_basis !!! q)
                ++ (if flips q then [XGate] else [])) Ket0)
      (b_basis !!! q).
Proof.
  intros Hq. unfold measured_after_eve.
  erewrite list_lookup_total_correct;
    [|rewrite list_lookup_fmap, lookup_seq_lt by exact Hq; reflexivity].
  rewrite !Nat.add_0_l. reflexivity.
Qed.

Lemma eavesdropping_stages_spec (bits a_basis e_basis b_basis : list Z)
    (error_rate : Q) w :
  (NUM_QUBITS <= length bits)%nat ->
  (NUM_QUBITS <= length a_basis)%nat ->
  (NUM_QUBITS <= length e_basis)%nat ->
  (NUM_QUBITS <= length b_basis)%nat ->
  let eve := eve_measured bits a_basis e_basis (aer_tape w) (aer_pos w) in
  let bob :=
    measured_after_eve eve e_basis b_basis
      (flipped_at (np_tape w) (np_pos w) error_rate)
      (aer_tape w) (aer_pos w + NUM_QUBITS) in
  exists w',
    eavesdropping_stages bits a_basis e_basis b_basis error_rate w
    = Ok (eve, bob,
          (bits !!!.) <$> agreeing a_basis b_basis NUM_QUBITS,
          (bob !!!.) <$> agreeing a_basis b_basis NUM_QUBITS) w'.
Proof.
  intros Hbits Ha He Hb eve bob. unfold eavesdropping_stages.
  rewrite (bind_ok _ _ _ _ _ (encode_message_spec bits a_basis w Hbits Ha)).
  set (message := seq (length (heap w)) NUM_QUBITS).
  assert (Hmlen : length message = NUM_QUBITS) by apply length_seq.
  assert (Hslot : forall q, (q < NUM_QUBITS)%nat ->
            (heap w ++ encoded bits a_basis NUM_QUBITS) !! (message !!! q)
            = Some (encode_gates (bits !!! q) (a_basis !!! q))).
  { intros q Hq. unfold message. rewrite lookup_total_seq_lt by exact Hq.
    rewrite lookup_app_r by lia.
    replace (length (heap w) + q - length (heap w))%nat with q by lia.
    unfold encoded. rewrite list_lookup_fmap, lookup_seq_lt by exact Hq.
    reflexivity. }
  unfold simulate_eavesdropping.
  rewrite bind_assoc, (bind_ok _ _ _ _ _ (print_spec _ _)), bind_assoc.
  match goal with |- exists _, bind _ _ ?w1 = _ =>
    destruct (eve_loop message e_basis a_basis error_rate w1)
      as (h' & out & Heve & Hlen & Hfwd)
  end.
  { lia. } { lia. }
  { intros q l Hl. cbn [heap set_heap set_stdout].
    assert (Hq : (q < NUM_QUBITS)%nat)
      by (apply lookup_lt_Some in Hl; lia).
    rewrite <- (list_lookup_total_correct _ _ _ Hl).
    eexists. split; [apply Hslot, Hq|].
    pose proof (no_measure_encoded (bits !!! q) (a_basis !!! q) false) as Hno.
    rewrite app_nil_r in Hno. exact Hno. }
  wsimpl. rewrite Hmlen in Heve, Hlen, Hfwd.
  set (h1 := heap w ++ encoded bits a_basis NUM_QUBITS) in *.
  assert (Heve_eq : eve_result message e_basis
                      (set_stdout (stdout w ++ [EveBegin]) (set_heap h1 w))
                      <$> seq 0 NUM_QUBITS
                    = eve).
  { apply Forall_fmap_ext, Forall_forall. intros q Hq. apply elem_of_seq in Hq.
    assert (Hq' : (q < NUM_QUBITS)%nat) by lia.
    unfold eve_result. wsimpl.
    rewrite (list_lookup_total_correct _ _ _ (Hslot q Hq')).
    reflexivity. }
  rewrite Heve_eq in Heve.
  rewrite (bind_ok _ _ _ _ _ Heve).
  rewrite bind_assoc, (bind_ok _ _ _ _ _ (print_spec _ _)).
  unfold bind at 1, ret at 1. cbn beta iota. wsimpl.
  set (forwarded := (fun q => (length h1 + 2 * q + 1)%nat) <$> seq 0 NUM_QUBITS).
  assert (Hflen : length forwarded = NUM_QUBITS)
    by (unfold forwarded; rewrite length_fmap; apply length_seq).
  assert (Hfl : forall q, (q < NUM_QUBITS)%nat ->
            forwarded !! q = Some (length h1 + 2 * q + 1)%nat).
  { intros q Hq. unfold forwarded.
    rewrite list_lookup_fmap, lookup_seq_lt by exact Hq. reflexivity. }
  assert (Hcirc : forall q, (q < NUM_QUBITS)%nat ->
            (h1 ++ h') !! (length h1 + 2 * q + 1)%nat
            = Some (reencode_gates (eve !!! q) (e_basis !!! q)
                    ++ (if flipped_at (np_tape w) (np_pos w) error_rate q
                        then [XGate] else []))).
  { intros q Hq. rewrite lookup_app_r by lia.
    replace (length h1 + 2 * q + 1 - length h1)%nat with (2 * q + 1)%nat by lia.
    rewrite (Hfwd q Hq). unfold eve_forwarded, eve_result, noise_gates, flipped_at.
    wsimpl.
    rewrite (list_lookup_total_correct _ _ _ (Hslot q Hq)).
    unfold eve. rewrite eve_measured_lookup by exact Hq. reflexivity. }
  match goal with |- exists _, bind _ _ ?w3 = _ =>
    destruct (measure_loop forwarded b_basis NUM_QUBITS w3)
      as (h2 & Hmeas & _ & _)
  end.
  { lia. } { exact Hb. }
  { rewrite take_ge by lia. unfold forwarded.
    apply NoDup_fmap_2; [|apply NoDup_seq]. intros x y Hxy. lia. }
  { intros q l Hq Hl. rewrite (Hfl q Hq) in Hl. injection Hl as <-.
    cbn [heap]. eexists. split; [apply Hcirc, Hq|].
    apply no_measure_forwarded.
    destruct (flipped_at _ _ _ _);
      rewrite ?not_elem_of_cons; repeat split; try discriminate;
      apply not_elem_of_nil. }
  wsimpl.
  assert (Hbob_eq :
            (fun q => outcome_of (aer_tape w (aer_pos w + NUM_QUBITS + q))
                        (prepare ((h1 ++ h') !!! (forwarded !!! q)) Ket0)
                        (b_basis !!! q)) <$> seq 0 NUM_QUBITS
            = bob).
  { apply Forall_fmap_ext, Forall_forall. intros q Hq. apply elem_of_seq in Hq.
    assert (Hq' : (q < NUM_QUBITS)%nat) by lia.
    rewrite (list_lookup_total_correct _ _ _ (Hfl q Hq')).
    rewrite (list_lookup_total_correct _ _ _ (Hcirc q Hq')).
    reflexivity. }
  rewrite Hbob_eq in Hmeas.
  unfold measure_message, range. rewrite (bind_ok _ _ _ _ _ Hmeas).
  rewrite (bind_ok _ _ _ _ _
             (remove_garbage_spec a_basis b_basis bits _ Ha Hb
                (agreeing_in_range a_basis b_basis bits NUM_QUBITS Hbits))).
  assert (Hboblen : (NUM_QUBITS <= length bob)%nat).
  { unfold bob, measured_after_eve. rewrite length_fmap, length_seq. lia. }
  rewrite (bind_ok _ _ _ _ _
             (remove_garbage_spec a_basis b_basis bob _ Ha Hb
                (agreeing_in_range a_basis b_basis bob NUM_QUBITS Hboblen))).
  eexists. reflexivity.
Qed.

Lemma eve_outcome sample b a e :
  is_bit b -> is_bit a -> is_bit e ->
  outcome_of sample (prepare (encode_gates b a) Ket0) e
  = if a =? e then b else sample_bit sample.
Proof.
  intros [-> | ->] [-> | ->] [-> | ->]; destruct sample; reflexivity.
Qed.

Lemma outcome_after_eve sample m e c (flipped : bool) :
  is_bit m -> is_bit e -> is_bit c ->
  outcome_of sample
    (prepare (reencode_gates m e ++ (if flipped then [XGate] else [])) Ket0) c
  = if c =? e then (if flipped && (e =? 0) then 1 - m else m)
    else sample_bit sample.
Proof.
  intros [-> | ->] [-> | ->] [-> | ->]; destruct flipped, sample; reflexivity.
Qed.

Lemma eve_measured_is_bit bits a_basis e_basis tape pos q :
  (q < NUM_QUBITS)%nat ->
  is_bit (eve_measured bits a_basis e_basis tape pos !!! q).
Proof.
  intros Hq. rewrite eve_measured_lookup by exact Hq. apply outcome_is_bit.
Qed.

(** X9. The intercepted transmission, slot by slot. For bits and bases
    that hold 0 or 1 and have an element for each of the [NUM_QUBITS]
    slots, encoding, Eve's interception, the receiver's measurement and the
    two sifts complete. Eve reads the sender's bit where her basis is the
    sender's, and the simulator's sample where it is not. The receiver
    reads, where its basis is Eve's, the bit Eve read (inverted when Eve's X
    gate fell on a qubit in the rectilinear basis), and the simulator's
    sample where its basis is not Eve's: in a slot where the receiver's
    basis is the sender's but not Eve's, the receiver's bit is a sample that
    does not depend on the sender's bit. *)
Theorem eavesdropping_measurements
    (bits a_basis e_basis b_basis : list Z) (error_rate : Q) (w : World) :
  (NUM_QUBITS <= length bits)%nat ->
  (NUM_QUBITS <= length a_basis)%nat ->
  (NUM_QUBITS <= length e_basis)%nat ->
  (NUM_QUBITS <= length b_basis)%nat ->
  all_bits (take NUM_QUBITS bits) = true ->
  all_bits (take NUM_QUBITS a_basis) = true ->
  all_bits (take NUM_QUBITS e_basis) = true ->
  all_bits (take NUM_QUBITS b_basis) = true ->
  exists eve bob w',
    eavesdropping_stages bits a_basis e_basis b_basis error_rate w
    = Ok (eve, bob,
          (bits !!!.) <$> agreeing a_basis b_basis NUM_QUBITS,
          (bob !!!.) <$> agreeing a_basis b_basis NUM_QUBITS) w'
    /\ length eve = NUM_QUBITS
    /\ length bob = NUM_QUBITS
    /\ (forall q, (q < NUM_QUBITS)%nat ->
        eve !!! q
        = (if a_basis !!! q =? e_basis !!! q then bits !!! q
           else sample_bit (aer_tape w (aer_pos w + q)))
        /\ bob !!! q
           = (if b_basis !!! q =? e_basis !!! q
              then (if flipped_at (np_tape w) (np_pos w) error_rate q
                       && (e_basis !!! q =? 0)
                    then 1 - eve !!! q else eve !!! q)
              else sample_bit (aer_tape w (aer_pos w + NUM_QUBITS + q)))).
Proof.
  intros Hbits Ha He Hb Hbit Hbas Heb Hbb.
  destruct (eavesdropping_stages_spec bits a_basis e_basis b_basis error_rate w
              Hbits Ha He Hb) as (w' & Hrun).
  eexists _, _, w'. split; [exact Hrun|].
  split; [unfold eve_measured; rewrite length_fmap; apply length_seq|].
  split; [unfold measured_after_eve; rewrite length_fmap; apply length_seq|].
  intros q Hq. split.
  - rewrite eve_measured_lookup by exact Hq.
    apply eve_outcome; eapply all_bits_take; eassumption.
  - rewrite measured_after_eve_lookup by exact Hq.
    apply outcome_after_eve;
      [apply eve_measured_is_bit, Hq|eapply all_bits_take; eassumption..].
Qed.

Lemma eavesdropping_measurements_witness :
  exists eve bob w',
    eavesdropping_stages (repeat 1 32) (repeat 0 32) (repeat 0 16 ++ repeat 1 16)
      (repeat 0 32) (1 # 10) channel_example_world
    = Ok (eve, bob,
          (repeat 1 32 !!!.) <$> agreeing (repeat 0 32) (repeat 0 32) NUM_QUBITS,
          (bob !!!.) <$> agreeing (repeat 0 32) (repeat 0 32) NUM_QUBITS) w'
    /\ length eve = NUM_QUBITS
    /\ length bob = NUM_QUBITS
    /\ (forall q, (q < NUM_QUBITS)%nat ->
        eve !!! q
        = (if repeat 0 32 !!! q =? (repeat 0 16 ++ repeat 1 16) !!! q
           then repeat 1 32 !!! q
           else sample_bit false)
        /\ bob !!! q
           = (if repeat 0 32 !!! q =? (repeat 0 16 ++ repeat 1 16) !!! q
              then (if flipped_at (fun _ => 0%N) 0 (1 # 10) q
                       && ((repeat 0 16 ++ repeat 1 16) !!! q =? 0)
                    then 1 - eve !!! q else eve !!! q)
              else sample_bit false)).
Proof.
  apply (eavesdropping_measurements (repeat 1 32) (repeat 0 32)
           (repeat 0 16 ++ repeat 1 16) (repeat 0 32) (1 # 10)
           channel_example_world);
    first [reflexivity | vm_compute; lia].
Defined.

(** X10. An eavesdropper who uses the sender's bases and adds no error is
    not detected. When Eve's basis is the sender's in every slot and
    [error_rate] is at most 0, Eve reads all the sender's bits, and the two
    sifted keys are equal, for every choice of receiver bases and every
    sample of the simulator. *)
Theorem eavesdropper_undetected (bits a_basis e_basis b_basis : list Z)
    (error_rate : Q) (w : World) :
  (NUM_QUBITS <= length bits)%nat ->
  (NUM_QUBITS <= length a_basis)%nat ->
  (NUM_QUBITS <= length e_basis)%nat ->
  (NUM_QUBITS <= length b_basis)%nat ->
  all_bits (take NUM_QUBITS bits) = true ->
  all_bits (take NUM_QUBITS a_basis) = true ->
  take NUM_QUBITS e_basis = take NUM_QUBITS a_basis ->
  (error_rate <= 0)%Q ->
  exists bob key w',
    eavesdropping_stages bits a_basis e_basis b_basis error_rate w
    = Ok (take NUM_QUBITS bits, bob, key, key) w'.
Proof.
  intros Hbits Ha He Hb Hbit Hbas Hsame Hrate.
  destruct (eavesdropping_stages_spec bits a_basis e_basis b_basis error_rate w
              Hbits Ha He Hb) as (w' & Hrun).
  assert (Hbasis : forall q, (q < NUM_QUBITS)%nat ->
            e_basis !!! q = a_basis !!! q).
  { intros q Hq. rewrite <- (lookup_total_take_lt e_basis NUM_QUBITS q Hq).
    rewrite Hsame. apply lookup_total_take_lt. exact Hq. }
  assert (Heve : forall q, (q < NUM_QUBITS)%nat ->
            eve_measured bits a_basis e_basis (aer_tape w) (aer_pos w) !!! q
            = bits !!! q).
  { intros q Hq. rewrite eve_measured_lookup, Hbasis by exact Hq.
    rewrite eve_outcome by (eapply all_bits_take; eassumption).
    rewrite Z.eqb_refl. reflexivity. }
  assert (Hall : eve_measured bits a_basis e_basis (aer_tape w) (aer_pos w)
                 = take NUM_QUBITS bits).
  { apply (list_eq_same_length _ _ NUM_QUBITS).
    - rewrite length_take_le; lia.
    - unfold eve_measured. rewrite length_fmap. apply length_seq.
    - intros q x y Hq Hx Hy.
      apply list_lookup_total_correct in Hx.
      apply list_lookup_total_correct in Hy.
      rewrite <- Hx, <- Hy, Heve, lookup_total_take_lt by exact Hq.
      reflexivity. }
  eexists _, _, w'. rewrite Hrun, Hall. do 2 f_equal.
  apply Forall_fmap_ext, Forall_forall. intros q Hq.
  apply agreeing_lt in Hq as [Hq Hab].
  rewrite measured_after_eve_lookup by exact Hq.
  rewrite lookup_total_take_lt, Hbasis, <- Hab by exact Hq.
  unfold flipped_at. rewrite never_flips by exact Hrate.
  pose proof (outcome_after_eve (aer_tape w (aer_pos w + NUM_QUBITS + q))
                (bits !!! q) (a_basis !!! q) (a_basis !!! q) false
                (all_bits_take bits NUM_QUBITS q Hbit Hbits Hq)
                (all_bits_take a_basis NUM_QUBITS q Hbas Ha Hq)
                (all_bits_take a_basis NUM_QUBITS q Hbas Ha Hq)) as Hout.
  rewrite Z.eqb_refl in Hout. exact Hout.
Qed.

Lemma eavesdropper_undetected_witness :
  exists bob key w',
    eavesdropping_stages (repeat 1 32) (repeat 0 16 ++ repeat 1 16)
      (repeat 0 16 ++ repeat 1 16) (repeat 0 32) 0 channel_example_world
    = Ok (take NUM_QUBITS (repeat 1 32), bob, key, key) w'.
Proof.
  apply (eavesdropper_undetected (repeat 1 32) (repeat 0 16 ++ repeat 1 16)
           (repeat 0 16 ++ repeat 1 16) (repeat 0 32) 0 channel_example_world);
    first [reflexivity | discriminate | vm_compute; lia].
Defined.

(** ** Measuring changes the message *)

Lemma measure_slot_heap (message : list loc) (basis : list Z) q l c
    (measurements : list Z) w :
  message !! q = Some l -> basis !! q = Some c ->
  exists result p,
    (c <- index basis q ;;
     (if c =? 1 then qc <- index message q ;; append_instruction HGate qc
      else ret tt) ;;;
     qc <- index message q ;;
     append_instruction MeasureOp qc ;;;
     qc <- index message q ;;
     result <- backend_run qc ;;
     ret (measurements ++ [result])) w
    = Ok (measurements ++ [result])
         (set_aer_pos p
            (set_heap
               (alter (fun x => x ++ [MeasureOp]) l
                  (if c =? 1 then alter (fun x => x ++ [HGate]) l (heap w)
                   else heap w)) w)).
Proof.
  intros Hl Hc. unfold bind, index. rewrite Hc. unfold ret at 1.
  destruct (c =? 1); rewrite Hl; unfold ret, append_instruction, backend_run;
    cbn [heap set_heap aer_tape aer_pos];
    match goal with |- context [execute ?qc ?t ?p ?k ?b] =>
      destruct (execute qc t p k b) as [r p'] end;
    eexists _, _; reflexivity.
Qed.

(** X11. [measure_message] works on the circuits of the message
    themselves. For a message of at least [NUM_QUBITS] circuits, distinct in
    its first [NUM_QUBITS] slots, and at least as many bases, it returns
    [NUM_QUBITS] results and leaves behind, in place, every circuit of those
    slots with a Hadamard gate (when the slot's basis is 1) and a
    measurement appended; it creates no circuit, touches no other circuit,
    draws nothing from numpy and prints nothing. The caller's message no
    longer holds the qubits it was given. *)
Theorem measure_message_in_place (message : list loc) (basis : list Z)
    (w : World) :
  (NUM_QUBITS <= length message)%nat ->
  (NUM_QUBITS <= length basis)%nat ->
  NoDup (take NUM_QUBITS message) ->
  exists results w',
    measure_message message basis w = Ok results w'
    /\ length results = NUM_QUBITS
    /\ np_pos w' = np_pos w
    /\ stdout w' = stdout w
    /\ length (heap w') = length (heap w)
    /\ (forall l, l ∉ take NUM_QUBITS message -> heap w' !! l = heap w !! l)
    /\ (forall q, (q < NUM_QUBITS)%nat ->
        heap w' !! (message !!! q)
        = (fun circ => circ ++ (if basis !!! q =? 1 then [HGate] else [])
                         ++ [MeasureOp])
            <$> heap w !! (message !!! q)).
Proof.
  intros Hm Hb Hnd. unfold measure_message, range.
  assert (Hdistinct : forall i j, (i < NUM_QUBITS)%nat -> (j < NUM_QUBITS)%nat ->
            message !!! i = message !!! j -> i = j).
  { intros i j Hi Hj Hij.
    apply (NoDup_lookup _ i j (message !!! i) Hnd);
      rewrite lookup_take_lt by assumption;
      [|rewrite Hij]; apply list_lookup_lookup_total_lt; lia. }
  match goal with |- context [for_each ?b ?xs ?a ?w] =>
    destruct (for_each_invariant b
      (fun done (acc : list Z) w' =>
         length acc = length done
         /\ exists h p,
           w' = set_aer_pos p (set_heap h w)
           /\ length h = length (heap w)
           /\ (forall l, l ∉ take (length done) message -> h !! l = heap w !! l)
           /\ (forall q, (q < length done)%nat ->
               h !! (message !!! q)
               = (fun circ => circ ++ (if basis !!! q =? 1 then [HGate] else [])
                                ++ [MeasureOp])
                   <$> heap w !! (message !!! q)))
      xs a w)
      as (acc' & w' & Heq & Hacc & h & p & Hw & Hlen & Hframe & Hdone)
  end.
  - split; [reflexivity|]. exists (heap w), (aer_pos w).
    split; [destruct w; reflexivity|]. split; [reflexivity|].
    split; [reflexivity|]. intros q Hq. inversion Hq.
  - intros done x rest acc1 w1 Hsplit (Hacc & h1 & p1 & -> & Hlen & Hframe & Hdone).
    apply seq_split in Hsplit as (_ & -> & Hlt & _). simpl in Hlt |- *.
    set (k := length done) in *.
    assert (Hl : message !! k = Some (message !!! k))
      by (apply list_lookup_lookup_total_lt; lia).
    assert (Hc : basis !! k = Some (basis !!! k))
      by (apply list_lookup_lookup_total_lt; lia).
    destruct (measure_slot_heap message basis k _ _ acc1
                (set_aer_pos p1 (set_heap h1 w)) Hl Hc) as (r & p2 & Hslot).
    assert (Hfresh : message !!! k ∉ take k message).
    { intros Hin. apply list_elem_of_lookup in Hin as [j Hj].
      apply lookup_take_Some in Hj as [Hj Hjk].
      apply list_lookup_total_correct in Hj.
      assert (j = k) by (apply Hdistinct; [lia|lia|exact Hj]). lia. }
    eexists _, _. split; [exact Hslot|].
    split; [rewrite !length_app, Hacc; reflexivity|].
    exists (alter (fun x => x ++ [MeasureOp]) (message !!! k)
              (if basis !!! k =? 1
               then alter (fun x => x ++ [HGate]) (message !!! k) h1
               else h1)), p2.
    split; [reflexivity|].
    replace (length (done ++ [k])) with (S k)
      by (rewrite length_app; simpl; lia).
    split; [|split].
    + rewrite length_alter. destruct (_ =? 1); [rewrite length_alter|]; exact Hlen.
    + intros l Hl'. rewrite (take_S_r _ _ _ Hl) in Hl'.
      rewrite not_elem_of_app, not_elem_of_cons in Hl'.
      destruct Hl' as [Hl1 [Hl2 _]].
      rewrite list_lookup_alter_ne by congruence.
      destruct (_ =? 1); [rewrite list_lookup_alter_ne by congruence|];
        apply Hframe, Hl1.
    + intros q Hq. destruct (decide (q < k)%nat) as [Hqk|Hqk].
      * assert (Hne : message !!! k <> message !!! q).
        { intros Heq'. assert (k = q) by (apply Hdistinct; [lia|lia|exact Heq']).
          lia. }
        rewrite list_lookup_alter_ne by exact Hne.
        destruct (basis !!! k =? 1);
          [rewrite list_lookup_alter_ne by exact Hne|]; apply Hdone, Hqk.
      * assert (q = k) as -> by lia.
        rewrite list_lookup_alter_eq.
        destruct (basis !!! k =? 1).
        -- rewrite list_lookup_alter_eq, (Hframe _ Hfresh).
           destruct (heap w !! (message !!! k)); simpl; [|reflexivity].
           rewrite <- app_assoc. reflexivity.
        -- rewrite (Hframe _ Hfresh).
           destruct (heap w !! (message !!! k)); reflexivity.
  - rewrite length_seq in Hacc, Hframe, Hdone.
    exists acc', w'. rewrite Hw. cbn [heap np_pos stdout set_heap set_aer_pos].
    split; [rewrite Heq, Hw; reflexivity|]. repeat split; assumption.
Qed.

Lemma measure_message_in_place_witness :
  exists results w',
    measure_message (seq 0 32) (repeat 1 32)
      (set_heap (repeat [BarrierOp] 32) channel_example_world)
    = Ok results w'
    /\ length results = NUM_QUBITS
    /\ np_pos w' = 0%nat
    /\ stdout w' = []
    /\ length (heap w') = 32%nat
    /\ (forall l, l ∉ take NUM_QUBITS (seq 0 32) ->
        heap w' !! l = repeat [BarrierOp] 32 !! l)
    /\ (forall q, (q < NUM_QUBITS)%nat ->
        heap w' !! (seq 0 32 !!! q)
        = (fun circ => circ ++ (if repeat 1 32 !!! q =? 1 then [HGate] else [])
                         ++ [MeasureOp])
            <$> repeat [BarrierOp] 32 !! (seq 0 32 !!! q)).
Proof.
  apply (measure_message_in_place (seq 0 32) (repeat 1 32)
           (set_heap (repeat [BarrierOp] 32) channel_example_world)).
  - vm_compute. lia.
  - vm_compute. lia.
  - apply (bool_decide_unpack _). vm_compute. reflexivity.
Defined.
